(** * oracle-vector-db: the filter compiler, the embedding pipeline and the
      collection adapter, embedded from [src/collection.ts] and
      [src/embeddings.ts].

    Conventions of the embedding.
    - A JavaScript number is modelled by an integer ([Z]); this covers the
      integer-valued numbers below 10^21 in magnitude, whose text form is
      their decimal notation.  No definition below does arithmetic on
      vector components, it only moves them around and prints them.
    - An object used as a record ([Record<string, any>]) is the list of its
      entries in the order [Object.entries] enumerates them.
    - An optional field is an [option]; the [a || b] idiom of the source is
      written out with the truthiness of [a].
    - A [throw] is the [inl] of a sum; the classes of [errors.ts] are the
      constructors of [error]. *)

From Stdlib Require Import ZArith String Ascii DecimalString DecimalZ QArith.
From stdpp Require Import gmap strings list.

Set Warnings "-register-all".

Local Open Scope string_scope.
Local Open Scope list_scope.

(** ** JavaScript values *)

Module Js.

Inductive json : Type :=
| JNull
| JBool (b : bool)
| JNum (n : Z)
| JStr (s : string)
| JArr (items : list json)
| JObj (fields : list (string * json)).

Definition object := list (string * json).

(** [String(n)] for an integer-valued number. *)
Definition num_to_string (n : Z) : string :=
  NilZero.string_of_int (Z.to_int n).

Definition bool_to_string (b : bool) : string :=
  if b then "true" else "false".

(** [`${v}`]: the text a template literal substitutes for [v].  An array
    prints its elements joined by commas, [null] elements as nothing; an
    object prints as [[object Object]]. *)
Fixpoint to_template (v : json) : string :=
  match v with
  | JNull => "null"
  | JBool b => bool_to_string b
  | JNum n => num_to_string n
  | JStr s => s
  | JArr items =>
      String.concat ","
        (map (fun x => match x with JNull => "" | _ => to_template x end) items)
  | JObj _ => "[object Object]"
  end.

(** Truthiness of a string: the empty string is falsy. *)
Definition truthy_string (s : string) : bool :=
  match s with EmptyString => false | _ => true end.

(** [o || d] for an optional string. *)
Definition string_or (o : option string) (d : string) : string :=
  match o with
  | Some s => if truthy_string s then s else d
  | None => d
  end.

(** [typeof v === 'object' && v !== null] *)
Definition is_object (v : json) : bool :=
  match v with
  | JArr _ | JObj _ => true
  | _ => false
  end.

(** [Object.entries(v)] for an object or an array (whose keys are its
    indices). *)
Definition entries (v : json) : list (string * json) :=
  match v with
  | JObj fields => fields
  | JArr items =>
      imap (fun i x => (num_to_string (Z.of_nat i), x)) items
  | _ => []
  end.

(** [a[i] = x] on an array with holes: writing past the end extends the
    array, the skipped positions stay empty. *)
Definition array_set {A} (i : nat) (x : A) (a : list (option A))
    : list (option A) :=
  if (i <? length a)%nat then <[i := Some x]> a
  else a ++ replicate (i - length a) None ++ [Some x].

(** [a[i]]: [undefined] at a hole and past the end. *)
Definition array_get {A} (a : list (option A)) (i : nat) : option A :=
  mjoin (a !! i).

Definition dquote : ascii := ascii_of_nat 34.
Definition backslash : ascii := ascii_of_nat 92.

Definition hex_digit (n : nat) : ascii :=
  if (n <? 10)%nat then ascii_of_nat (48 + n) else ascii_of_nat (87 + n).

(** The escapes [JSON.stringify] applies inside a string literal. *)
Definition escape_char (c : ascii) : string :=
  let n := nat_of_ascii c in
  if (n =? 34)%nat then String backslash (String dquote "")
  else if (n =? 92)%nat then String backslash (String backslash "")
  else if (n =? 8)%nat then String backslash "b"
  else if (n =? 9)%nat then String backslash "t"
  else if (n =? 10)%nat then String backslash "n"
  else if (n =? 12)%nat then String backslash "f"
  else if (n =? 13)%nat then String backslash "r"
  else if (n <? 32)%nat then
    String backslash
      (String "u" (String "0" (String "0"
        (String (hex_digit (n / 16)) (String (hex_digit (n mod 16)) "")))))
  else String c "".

Fixpoint escape_string (s : string) : string :=
  match s with
  | EmptyString => ""
  | String c rest => escape_char c +:+ escape_string rest
  end.

Definition quote (s : string) : string :=
  String dquote (escape_string s +:+ String dquote "").

(** [JSON.stringify(v)] without indentation. *)
Fixpoint JSON_stringify (v : json) : string :=
  match v with
  | JNull => "null"
  | JBool b => bool_to_string b
  | JNum n => num_to_string n
  | JStr s => quote s
  | JArr items => "[" +:+ String.concat "," (map JSON_stringify items) +:+ "]"
  | JObj fields =>
      "{" +:+
      String.concat ","
        (map (fun kv => match kv with
                        | (k, x) => quote k +:+ ":" +:+ JSON_stringify x
                        end) fields)
      +:+ "}"
  end.

End Js.

(** ** errors.ts *)

Inductive error : Type :=
| ValidationError (message : string)
| EmbeddingError (message : string)
| SearchError (message : string)
| CollectionError (message : string)
| TypeError (message : string).

Definition result (A : Type) : Type := error + A.

Definition is_validation_error {A} (r : result A) : bool :=
  match r with
  | inl (ValidationError _) => true
  | _ => false
  end.

(** ** The filter compiler: [Collection.buildFilterConditions] *)

Module Filter.
Import Js.

Inductive cmp_op := OpEq | OpNe | OpGt | OpGte | OpLt | OpLte.

Definition op_symbol (o : cmp_op) : string :=
  match o with
  | OpEq => "=" | OpNe => "!=" | OpGt => ">"
  | OpGte => ">=" | OpLt => "<" | OpLte => "<="
  end.

(** One element of the [conditions] array.  The source pushes the text;
    the embedding keeps what the text is made of and prints it with
    [render]. *)
Inductive Condition : Type :=
| Compare (key : string) (op : cmp_op) (literal : string)
| InList (key : string) (literals : list string).

Definition json_value_path (key : string) : string :=
  "JSON_VALUE(metadata, '$." +:+ key +:+ "')".

Definition sql_quote (s : string) : string := "'" +:+ s +:+ "'".

Definition render (c : Condition) : string :=
  match c with
  | Compare key op literal =>
      json_value_path key +:+ " " +:+ op_symbol op +:+ " " +:+ sql_quote literal
  | InList key literals =>
      json_value_path key +:+ " IN (" +:+
      String.concat "," (map sql_quote literals) +:+ ")"
  end.

(** The [switch (op)] of the source: the six comparison cases. *)
Definition cmp_op_of (op : string) : option cmp_op :=
  if String.eqb op "$eq" then Some OpEq
  else if String.eqb op "$ne" then Some OpNe
  else if String.eqb op "$gt" then Some OpGt
  else if String.eqb op "$gte" then Some OpGte
  else if String.eqb op "$lt" then Some OpLt
  else if String.eqb op "$lte" then Some OpLte
  else None.

(** [(val as any[]).map(v => `'${v}'`)]: only an array has [map]. *)
Definition in_literals (val : json) : result (list string) :=
  match val with
  | JArr items => inr (map to_template items)
  | JNull => inl (TypeError "Cannot read properties of null (reading 'map')")
  | _ => inl (TypeError "val.map is not a function")
  end.

(** The inner loop, over the entries of an operator object.  A key that
    matches no [case] leaves [conditions] as it is. *)
Fixpoint operator_conditions (key : string) (ops : list (string * json))
    (conditions : list Condition) : result (list Condition) :=
  match ops with
  | [] => inr conditions
  | (op, val) :: rest =>
      match cmp_op_of op with
      | Some o =>
          operator_conditions key rest
            (conditions ++ [Compare key o (to_template val)])
      | None =>
          if String.eqb op "$in" then
            match in_literals val with
            | inl e => inl e
            | inr literals =>
                operator_conditions key rest (conditions ++ [InList key literals])
            end
          else operator_conditions key rest conditions
      end
  end.

(** The outer loop, over the entries of the filter. *)
Fixpoint filter_conditions (filter : list (string * json))
    (conditions : list Condition) : result (list Condition) :=
  match filter with
  | [] => inr conditions
  | (key, value) :: rest =>
      if is_object value then
        match operator_conditions key (entries value) conditions with
        | inl e => inl e
        | inr conditions' => filter_conditions rest conditions'
        end
      else
        filter_conditions rest
          (conditions ++ [Compare key OpEq (to_template value)])
  end.

Definition compile (filter : object) : result (list Condition) :=
  filter_conditions filter [].

(** [buildFilterConditions]: the conditions joined by [' AND ']. *)
Definition buildFilterConditions (filter : object) : result string :=
  match compile filter with
  | inl e => inl e
  | inr conditions => inr (String.concat " AND " (map render conditions))
  end.

(** [render] writes the key and the literal between single quotes without
    escaping them.  A text without a single quote stays inside the quotes it
    is written between; one with a single quote ends them, and what follows
    it is read as part of the statement. *)
Fixpoint quote_free (s : string) : bool :=
  match s with
  | EmptyString => true
  | String c rest => negb (Ascii.eqb c "'") && quote_free rest
  end.

(** A condition whose text is read as the comparison it was compiled from:
    neither its key nor a literal of it has a single quote. *)
Definition closed (c : Condition) : bool :=
  match c with
  | Compare key _ literal => quote_free key && quote_free literal
  | InList key literals => quote_free key && forallb quote_free literals
  end.

(** A filter, if there is one, that compiles to closed conditions. *)
Definition closed_filter (filter : option object) : bool :=
  match filter with
  | Some f =>
      match compile f with
      | inr conditions => forallb closed conditions
      | inl _ => true
      end
  | None => true
  end.

Definition is_letter (c : ascii) : bool :=
  let n := nat_of_ascii c in
  ((65 <=? n)%nat && (n <=? 90)%nat) || ((97 <=? n)%nat && (n <=? 122)%nat).

Definition is_digit (c : ascii) : bool :=
  let n := nat_of_ascii c in (48 <=? n)%nat && (n <=? 57)%nat.

Fixpoint letters_and_digits (s : string) : bool :=
  match s with
  | EmptyString => true
  | String c rest => (is_letter c || is_digit c) && letters_and_digits rest
  end.

(** A key that the path [$.key] reads as the name of one field: a letter
    followed by letters and digits.  Any other key is a path of its own (a
    dot is a step into a nested object, a bracket an array step) or no
    path at all. *)
Definition field_name (key : string) : bool :=
  match key with
  | String c rest => is_letter c && letters_and_digits rest
  | EmptyString => false
  end.

(** A closed condition on one field of the metadata. *)
Definition plain (c : Condition) : bool :=
  closed c
  && match c with
     | Compare key _ _ => field_name key
     | InList key _ => field_name key
     end.

Definition plain_filter (filter : option object) : bool :=
  match filter with
  | Some f =>
      match compile f with
      | inr conditions => forallb plain conditions
      | inl _ => true
      end
  | None => true
  end.

End Filter.

(** ** The [lru-cache] instance of the embedding service

    [new LRUCache({ max: 1000, ttl: 1000 * 60 * 60 })].  The entries are kept
    most recently used first; each carries the clock reading (milliseconds)
    of its insertion.  An entry older than [ttl] is stale: [get] drops it and
    answers [undefined]. *)

Module Lru.

Record entry := Entry { key : string; value : list Z; start : Z }.

Definition max : nat := 1000.
Definition ttl : Z := 1000 * 60 * 60.

Definition is_stale (now : Z) (e : entry) : bool := (ttl <? now - start e)%Z.

Definition has_key (k : string) (e : entry) : bool := String.eqb (key e) k.

Definition remove (k : string) (c : list entry) : list entry :=
  filter (fun e => has_key k e = false) c.

Definition get (now : Z) (k : string) (c : list entry)
    : option (list Z) * list entry :=
  match List.find (has_key k) c with
  | None => (None, c)
  | Some e =>
      if is_stale now e then (None, remove k c)
      else (Some (value e), e :: remove k c)
  end.

Definition set (now : Z) (k : string) (v : list Z) (c : list entry)
    : list entry :=
  take max (Entry k v now :: remove k c).

(** What [get] would answer, without touching the cache. *)
Definition peek (now : Z) (k : string) (c : list entry) : option (list Z) :=
  fst (get now k c).

End Lru.

(** ** embeddings.ts: [EmbeddingService] *)

Module Embeddings.
Import Js.

Definition vector := list Z.

(** The state of the service: its cache, and the requests sent to
    [openai.embeddings.create] so far, oldest first. *)
Record EmbeddingService := Service {
  cache : list Lru.entry;
  calls : list (string * list string)
}.

(** [new EmbeddingService(apiKey)] *)
Definition new_service : EmbeddingService := Service [] [].

(** [`${model}:${text}`] *)
Definition cache_key (model text : string) : string :=
  model +:+ ":" +:+ text.

(** [createBatches(items, batchSize)]: the loop
    [for (i = 0; i < items.length; i += batchSize)] runs at most
    [items.length] times when [batchSize] is positive, as it is at the only
    call site. *)
Fixpoint createBatches_loop {T} (fuel : nat) (items : list T) (batchSize : nat)
    : list (list T) :=
  match fuel, items with
  | S fuel', _ :: _ =>
      take batchSize items :: createBatches_loop fuel' (drop batchSize items) batchSize
  | _, _ => []
  end.

Definition createBatches {T} (items : list T) (batchSize : nat) : list (list T) :=
  createBatches_loop (length items) items batchSize.

(** The first loop of [embed]: cache hits fill their slot of [results],
    misses are queued with their index. *)
Fixpoint lookup_loop (now : Z) (model : string) (texts : list string) (i : nat)
    (c : list Lru.entry) (results : list (option vector))
    (toEmbed : list (string * nat))
    : list Lru.entry * list (option vector) * list (string * nat) :=
  match texts with
  | [] => (c, results, toEmbed)
  | text :: rest =>
      match Lru.get now (cache_key model text) c with
      | (Some cached, c') =>
          lookup_loop now model rest (S i) c' (array_set i cached results) toEmbed
      | (None, c') =>
          lookup_loop now model rest (S i) c' results (toEmbed ++ [(text, i)])
      end
  end.

(** [Promise.all]: the promises settle in the order [completion] (batch
    numbers); each fulfilled value is stored at the number of its promise,
    the first rejection rejects the whole. *)
Fixpoint promise_all_loop {A} (outcomes : list (result A)) (completion : list nat)
    (values : list (option A)) : result (list (option A)) :=
  match completion with
  | [] => inr values
  | b :: rest =>
      match outcomes !! b with
      | Some (inl e) => inl e
      | Some (inr v) => promise_all_loop outcomes rest (<[b := Some v]> values)
      | None => promise_all_loop outcomes rest values
      end
  end.

Definition promise_all {A} (outcomes : list (result A)) (completion : list nat)
    : result (list (option A)) :=
  promise_all_loop outcomes completion (replicate (length outcomes) None).

(** [embeddings.flat()], holes skipped. *)
Definition flat {A} (values : list (option (list A))) : list A :=
  concat (omap id values).

(** The last loop of [embed]. *)
Fixpoint write_back (now : Z) (model : string) (texts : list string)
    (items : list (nat * vector))
    (c : list Lru.entry) (results : list (option vector))
    : list Lru.entry * list (option vector) :=
  match items with
  | [] => (c, results)
  | (index, embedding) :: rest =>
      write_back now model texts rest
        (Lru.set now (cache_key model (default "undefined" (texts !! index))) embedding c)
        (array_set index embedding results)
  end.

Section WithProvider.

(** The embedding provider, [openai.embeddings.create({ model, input })]:
    the [embedding]s of [response.data], or the text of the error it
    throws. *)
Variable provider : string -> list string -> string + list vector.

(** [batch.map((item, idx) => ({ index: item.index,
    embedding: response.data[idx].embedding }))]; reading [embedding]
    of a missing [data[idx]] throws. *)
Fixpoint batch_embeddings (batch : list (string * nat)) (data : list vector)
    : option (list (nat * vector)) :=
  match batch, data with
  | [], _ => Some []
  | _ :: _, [] => None
  | item :: batch', v :: data' =>
      match batch_embeddings batch' data' with
      | Some r => Some ((snd item, v) :: r)
      | None => None
      end
  end.

Definition undefined_embedding : string :=
  "TypeError: Cannot read properties of undefined (reading 'embedding')".

(** The task queued for one batch. *)
Definition run_batch (model : string) (batch : list (string * nat))
    : result (list (nat * vector)) :=
  match provider model (map fst batch) with
  | inl err => inl (EmbeddingError ("Failed to generate embeddings: " +:+ err))
  | inr data =>
      match batch_embeddings batch data with
      | Some r => inr r
      | None =>
          inl (EmbeddingError ("Failed to generate embeddings: " +:+ undefined_embedding))
      end
  end.

(** [embed(texts, model)], with the batch size as a parameter; [now] is
    the clock reading during the call and [completion] the order in which
    the queued batches settle. *)
Definition embed_batched (batchSize : nat) (now : Z) (completion : list nat)
    (svc : EmbeddingService) (texts : list string) (model : string)
    : result (list (option vector)) * EmbeddingService :=
  match lookup_loop now model texts 0 (cache svc) [] [] with
  | (c, results, toEmbed) =>
      match toEmbed with
      | [] => (inr results, Service c (calls svc))
      | _ :: _ =>
          let batches := createBatches toEmbed batchSize in
          let calls' :=
            calls svc ++ map (fun batch => (model, map fst batch)) batches in
          match promise_all (map (run_batch model) batches) completion with
          | inl e => (inl e, Service c calls')
          | inr embeddings =>
              match write_back now model texts (flat embeddings) c results with
              | (c', results') => (inr results', Service c' calls')
              end
          end
      end
  end.

Definition embed := embed_batched 100.

(** [embedSingle(text, model)] *)
Definition embedSingle (now : Z) (svc : EmbeddingService) (text model : string)
    : result vector * EmbeddingService :=
  match Lru.get now (cache_key model text) (cache svc) with
  | (Some cached, c) => (inr cached, Service c (calls svc))
  | (None, c) =>
      let calls' := calls svc ++ [(model, [text])] in
      match provider model [text] with
      | inl err =>
          (inl (EmbeddingError ("Failed to generate embedding: " +:+ err)),
           Service c calls')
      | inr [] =>
          (inl (EmbeddingError ("Failed to generate embedding: " +:+ undefined_embedding)),
           Service c calls')
      | inr (response :: _) =>
          (inr response, Service (Lru.set now (cache_key model text) response c) calls')
      end
  end.

End WithProvider.

End Embeddings.

(** ** The table behind a collection

    [create] declares [id VARCHAR2(255) PRIMARY KEY]: the table holds at most
    one row per id, so it is a finite map from ids to rows.  What the store
    does with a statement is not code of the repository; this module fixes
    the reading of the statements the adapter issues.

    Two limits of that reading.
    - The conditions of a filter reach the store as text, with key and
      literal written between quotes ([Filter.render]).  [holds], [selected]
      and [select_nearest] give the reading of that text for conditions
      that are [Filter.closed]; they say what the condition is on one field
      of the metadata when it is [Filter.plain].  With a quote in a key or
      a literal the store reads another statement than the one meant (the
      rest of the literal becomes part of the [WHERE] clause, and of the
      line that carries [FETCH FIRST]); this module does not say which.
      The properties below that depend on the rows a filter selects
      assume closed, or plain, conditions.
    - A statement the store refuses for the values it is given (a NULL or
      overlong id, a vector that is not of the dimension of the column) is
      not part of the reading: [merge] and the [UPDATE] always go through.
      The properties below about a write state what the table holds when
      the call has succeeded. *)

Module Store.
Import Js Filter.

(** A row, and also the bind set [upsert] builds for one document.  The
    [embedding] is the text handed to [TO_VECTOR]; the [metadata] is bound
    as [JSON.stringify(doc.metadata || {})] and read back by [JSON(...)],
    the row keeps the value. *)
Record Row := mkRow {
  ID : string;
  EMBEDDING : string;
  TEXT : option string;
  METADATA : object;
  NAMESPACE : string
}.

(** One execution of the [MERGE INTO ... ON (t.id = s.id)] of [upsert]: a
    row with this id is overwritten (embedding, text, metadata and
    namespace), otherwise the row is inserted.  This is the table after a
    [MERGE] that the store has accepted. *)
Definition merge (t : gmap string Row) (bind : Row) : gmap string Row :=
  <[ID bind := bind]> t.

(** [executeMany(MERGE ..., binds)] *)
Definition executeMany_merge (t : gmap string Row) (binds : list Row)
    : gmap string Row :=
  foldl merge t binds.

Definition rows (t : gmap string Row) : list Row := (map_to_list t).*2.

(** In Oracle the empty string is NULL. *)
Definition sql_text (s : string) : option string :=
  if truthy_string s then Some s else None.

Fixpoint lookup_key (key : string) (fields : object) : option json :=
  match fields with
  | [] => None
  | (k, v) :: rest => if String.eqb k key then Some v else lookup_key key rest
  end.

(** [JSON_VALUE(metadata, '$.key')] with its default [VARCHAR2] return
    type: the text of a scalar, NULL for anything else. *)
Definition JSON_VALUE (metadata : object) (key : string) : option string :=
  match lookup_key key metadata with
  | Some (JStr s) => sql_text s
  | Some (JNum n) => Some (num_to_string n)
  | Some (JBool b) => Some (bool_to_string b)
  | _ => None
  end.

(** Comparison of two character values (binary collation). *)
Definition compare_text (op : cmp_op) (a b : string) : bool :=
  match op with
  | OpEq => String.eqb a b
  | OpNe => negb (String.eqb a b)
  | OpGt => String.ltb b a
  | OpGte => String.leb b a
  | OpLt => String.ltb a b
  | OpLte => String.leb a b
  end.

(** A condition holds for a row when it evaluates to TRUE; a NULL operand
    makes it UNKNOWN, which does not select the row. *)
Definition holds (metadata : object) (c : Condition) : bool :=
  match c with
  | Compare key op literal =>
      match JSON_VALUE metadata key, sql_text literal with
      | Some a, Some b => compare_text op a b
      | _, _ => false
      end
  | InList key literals =>
      match JSON_VALUE metadata key with
      | Some a =>
          existsb (fun literal =>
                     match sql_text literal with
                     | Some b => String.eqb a b
                     | None => false
                     end) literals
      | None => false
      end
  end.

(** [WHERE namespace = :namespace AND c1 AND ... AND cn], for closed
    conditions. *)
Definition selected (namespace : string) (conditions : list Condition)
    (r : Row) : bool :=
  String.eqb (NAMESPACE r) namespace && forallb (holds (METADATA r)) conditions.

(** [IN ()] is not an expression. *)
Definition malformed (conditions : list Condition) : bool :=
  existsb (fun c => match c with InList _ [] => true | _ => false end) conditions.

Definition missing_expression : string := "Error: ORA-00936: missing expression".

(** [ORDER BY score ASC], rows of equal score in the order of the table. *)
Fixpoint insert_by_score (x : Q * Row) (l : list (Q * Row)) : list (Q * Row) :=
  match l with
  | [] => [x]
  | y :: l' =>
      if Qle_bool (fst x) (fst y) then x :: y :: l'
      else y :: insert_by_score x l'
  end.

Definition order_by_score (l : list (Q * Row)) : list (Q * Row) :=
  foldr insert_by_score [] l.

Section Query.

(** [VECTOR_DISTANCE(embedding, TO_VECTOR(:queryVector), METRIC)] for the
    stored text, the bound text and the metric name: the distance, or the
    text of the error the store raises. *)
Variable vector_distance : string -> string -> string -> string + Q.

Fixpoint score_rows (metric queryVector : string) (l : list Row)
    : string + list (Q * Row) :=
  match l with
  | [] => inr []
  | r :: l' =>
      match vector_distance (EMBEDDING r) queryVector metric with
      | inl e => inl e
      | inr d =>
          match score_rows metric queryVector l' with
          | inl e => inl e
          | inr scored => inr ((d, r) :: scored)
          end
      end
  end.

(** The [SELECT] of [search], for closed conditions; [FETCH FIRST n ROWS
    ONLY] yields no row when [n] is not positive. *)
Definition select_nearest (t : gmap string Row) (metric queryVector : string)
    (namespace : string) (conditions : list Condition) (topK : Z)
    : string + list (Q * Row) :=
  if malformed conditions then inl missing_expression
  else
    match score_rows metric queryVector
            (List.filter (selected namespace conditions) (rows t)) with
    | inl e => inl e
    | inr scored => inr (take (Z.to_nat topK) (order_by_score scored))
    end.

End Query.

End Store.

(** ** collection.ts: [Collection] *)

Module Collection.
Import Js Filter Store Embeddings.

Inductive Metric := cosine | euclidean | dot_product.

Record CollectionConfig := mkConfig {
  dimension : Z;
  metric : option Metric;
  embeddingModel : option string
}.

Record Document := mkDocument {
  doc_id : string;
  doc_text : option string;
  doc_metadata : option object;
  doc_vector : option vector
}.

Record UpsertRequest := mkUpsert {
  u_documents : list Document;
  u_namespace : option string
}.

Record QueryRequest := mkQuery {
  q_vector : option vector;
  q_query : option string;
  q_topK : option Z;
  q_filter : option object;
  q_includeMetadata : option bool;
  q_namespace : option string
}.

(** A match; its [vector] field ([parseVector] of the stored text, present
    under [includeValues]) is left out, nothing below reads it. *)
Record QueryMatch := mkMatch {
  m_id : string;
  m_score : Q;
  m_text : option string;
  m_metadata : option object
}.

Record QueryResponse := mkResponse {
  matches : list QueryMatch;
  r_namespace : string
}.

(** The collection: its name and configuration, the embedding service the
    constructor creates when an API key and an embedding model are both
    there, and the table its connection reaches. *)
Record Collection := mkCollection {
  name : string;
  config : CollectionConfig;
  embeddingService : option EmbeddingService;
  table : gmap string Row
}.

Definition with_service (c : Collection) (svc : EmbeddingService) : Collection :=
  mkCollection (name c) (config c) (Some svc) (table c).

Definition with_table (c : Collection) (t : gmap string Row) : Collection :=
  mkCollection (name c) (config c) (embeddingService c) t.

(** [this.embeddingService && this.config.embeddingModel] *)
Definition embedding_setup (c : Collection) : option (EmbeddingService * string) :=
  match embeddingService c, embeddingModel (config c) with
  | Some svc, Some model =>
      if truthy_string model then Some (svc, model) else None
  | _, _ => None
  end.

(** [this.config.metric?.toUpperCase() || 'COSINE'] *)
Definition metric_name (c : Collection) : string :=
  match metric (config c) with
  | Some cosine | None => "COSINE"
  | Some euclidean => "EUCLIDEAN"
  | Some dot_product => "DOT_PRODUCT"
  end.

(** [`[${vector.join(',')}]`] *)
Definition vector_literal (v : vector) : string :=
  "[" +:+ String.concat "," (map num_to_string v) +:+ "]".

(** [doc.text || JSON.stringify(doc.metadata || {})] *)
Definition text_to_embed (doc : Document) : string :=
  string_or (doc_text doc) (JSON_stringify (JObj (default [] (doc_metadata doc)))).

(** [doc.vector || embeddings[i]]; an array, even empty, is truthy. *)
Definition resolve_vector (doc : Document) (embeddings : list (option vector))
    (i : nat) : option vector :=
  match doc_vector doc with
  | Some v => Some v
  | None => array_get embeddings i
  end.

Definition dimension_mismatch (c : Collection) (doc : Document)
    (v : option vector) : string :=
  "Vector dimension mismatch for document " +:+ doc_id doc +:+
  ". Expected " +:+ num_to_string (dimension (config c)) +:+
  ", got " +:+
  num_to_string (match v with Some v => Z.of_nat (length v) | None => 0%Z end).

Definition make_bind (namespace : string) (doc : Document) (v : vector) : Row :=
  mkRow (doc_id doc) (vector_literal v)
    (match doc_text doc with
     | Some s => if truthy_string s then Some s else None
     | None => None
     end)
    (default [] (doc_metadata doc))
    namespace.

(** The loop of [upsert] that checks each vector and collects the binds. *)
Fixpoint collect_binds (c : Collection) (namespace : string)
    (embeddings : list (option vector)) (documents : list Document) (i : nat)
    (binds : list Row) : result (list Row) :=
  match documents with
  | [] => inr binds
  | doc :: rest =>
      let v := resolve_vector doc embeddings i in
      match v with
      | Some vec =>
          if (Z.of_nat (length vec) =? dimension (config c))%Z then
            collect_binds c namespace embeddings rest (S i)
              (binds ++ [make_bind namespace doc vec])
          else inl (ValidationError (dimension_mismatch c doc v))
      | None => inl (ValidationError (dimension_mismatch c doc v))
      end
  end.

(** The [SELECT] text of [search]. *)
Definition nl : string := String (ascii_of_nat 10) "".

Definition search_sql (c : Collection) (filterConditions : string) : string :=
  nl +:+
  "      SELECT " +:+ nl +:+
  "        id," +:+ nl +:+
  "        VECTOR_DISTANCE(embedding, TO_VECTOR(:queryVector), "
    +:+ metric_name c +:+ ") as score," +:+ nl +:+
  "        text," +:+ nl +:+
  "        metadata," +:+ nl +:+
  "        embedding" +:+ nl +:+
  "      FROM " +:+ name c +:+ nl +:+
  "      WHERE namespace = :namespace" +:+ nl +:+
  "    " +:+
  (if truthy_string filterConditions then " AND " +:+ filterConditions else "") +:+
  " ORDER BY score ASC FETCH FIRST :topK ROWS ONLY".

(** The bind variables of that statement. *)
Record SearchBinds := mkBinds {
  b_queryVector : string;
  b_namespace : string;
  b_topK : Z
}.

(** [request.topK || 10]: zero is falsy. *)
Definition effective_topK (request : QueryRequest) : Z :=
  match q_topK request with
  | Some k => if (k =? 0)%Z then 10%Z else k
  | None => 10%Z
  end.

Definition search_binds (request : QueryRequest) (queryVector : vector)
    : SearchBinds :=
  mkBinds (vector_literal queryVector)
    (string_or (q_namespace request) "default")
    (effective_topK request).

(** The conditions of the request's filter, none without a filter. *)
Definition request_conditions (request : QueryRequest) : result (list Condition) :=
  match q_filter request with
  | Some filter => compile filter
  | None => inr []
  end.

(** The statement text [search] sends. *)
Definition search_statement (c : Collection) (request : QueryRequest)
    : result string :=
  match q_filter request with
  | Some filter =>
      match buildFilterConditions filter with
      | inl e => inl e
      | inr filterConditions => inr (search_sql c filterConditions)
      end
  | None => inr (search_sql c "")
  end.

Definition to_match (request : QueryRequest) (scored : Q * Row) : QueryMatch :=
  let row := snd scored in
  let includeMetadata := default false (q_includeMetadata request) in
  mkMatch (ID row) (1 - fst scored)%Q
    (if includeMetadata then TEXT row else None)
    (if includeMetadata then Some (METADATA row) else None).

Section WithServices.

Variable provider : string -> list string -> string + list vector.
Variable vector_distance : string -> string -> string -> string + Q.

(** The embeddings [upsert] generates before its loop: one per document
    when the service and the model are there, none otherwise. *)
Definition generate_embeddings (now : Z) (completion : list nat)
    (c : Collection) (documents : list Document)
    : result (list (option vector)) * Collection :=
  match embedding_setup c with
  | Some (svc, model) =>
      match embed provider now completion svc
              (map text_to_embed documents) model with
      | (r, svc') => (r, with_service c svc')
      end
  | None => (inr [], c)
  end.

(** [upsert(request)] *)
Definition upsert (now : Z) (completion : list nat) (c : Collection)
    (request : UpsertRequest) : result unit * Collection :=
  let namespace := string_or (u_namespace request) "default" in
  let documents := u_documents request in
  match documents with
  | [] => (inl (ValidationError "No documents provided"), c)
  | _ :: _ =>
      match generate_embeddings now completion c documents with
      | (inl e, c') => (inl e, c')
      | (inr embeddings, c') =>
          match collect_binds c' namespace embeddings documents 0 [] with
          | inl e => (inl e, c')
          | inr binds =>
              (inr tt, with_table c' (executeMany_merge (table c') binds))
          end
      end
  end.

(** The part of [search] after the query vector is settled.  The store is
    handed [search_statement]; its answer is [select_nearest] when the
    conditions of the filter are closed. *)
Definition search_with (c : Collection) (request : QueryRequest)
    (queryVector : vector) : result QueryResponse :=
  let binds := search_binds request queryVector in
  match request_conditions request with
  | inl e => inl e
  | inr conditions =>
      match select_nearest vector_distance (table c) (metric_name c)
              (b_queryVector binds) (b_namespace binds) conditions
              (b_topK binds) with
      | inl e => inl (SearchError ("Search failed: " +:+ e))
      | inr scored =>
          inr (mkResponse (map (to_match request) scored) (b_namespace binds))
      end
  end.

(** [search(request)] *)
Definition search (now : Z) (c : Collection) (request : QueryRequest)
    : result QueryResponse * Collection :=
  match q_vector request with
  | Some queryVector => (search_with c request queryVector, c)
  | None =>
      match q_query request with
      | Some query =>
          if truthy_string query then
            match embedding_setup c with
            | None =>
                (inl (SearchError "Embedding service not configured for text queries"), c)
            | Some (svc, model) =>
                match embedSingle provider now svc query model with
                | (inl e, svc') => (inl e, with_service c svc')
                | (inr queryVector, svc') =>
                    (search_with (with_service c svc') request queryVector,
                     with_service c svc')
                end
            end
          else (inl (ValidationError "Either vector or query must be provided"), c)
      | None => (inl (ValidationError "Either vector or query must be provided"), c)
      end
  end.

End WithServices.

End Collection.

(** ** The reference evaluator of filters

    Written from the words of the specification, not from the source: a
    filter maps a metadata key to a literal (implicit [$eq]) or to an
    operator mapping over [$eq $ne $gt $gte $lt $lte $in]; all fragments are
    conjoined; comparisons are typed (numbers as numbers, strings as
    strings, booleans as booleans); any other operator is a
    [ValidationError]. *)

Module Reference.
Import Js Filter.

Definition compare_with {A} (eqb ltb : A -> A -> bool) (op : cmp_op) (a b : A)
    : bool :=
  match op with
  | OpEq => eqb a b
  | OpNe => negb (eqb a b)
  | OpGt => ltb b a
  | OpGte => negb (ltb a b)
  | OpLt => ltb a b
  | OpLte => negb (ltb b a)
  end.

Definition bool_ltb (a b : bool) : bool := negb a && b.

(** A comparison across types, or with an absent value, is an inequality. *)
Definition typed_compare (op : cmp_op) (a b : json) : bool :=
  match a, b with
  | JNum x, JNum y => compare_with Z.eqb Z.ltb op x y
  | JStr x, JStr y => compare_with String.eqb String.ltb op x y
  | JBool x, JBool y => compare_with Bool.eqb bool_ltb op x y
  | _, _ => match op with OpNe => true | _ => false end
  end.

Definition reference_operator (stored : json) (op : string) (val : json)
    : result bool :=
  match cmp_op_of op with
  | Some o => inr (typed_compare o stored val)
  | None =>
      if String.eqb op "$in" then
        match val with
        | JArr items => inr (existsb (typed_compare OpEq stored) items)
        | _ => inl (ValidationError "$in needs a list")
        end
      else inl (ValidationError ("Unsupported operator " +:+ op))
  end.

Fixpoint reference_operators (stored : json) (ops : list (string * json))
    : result bool :=
  match ops with
  | [] => inr true
  | (op, val) :: rest =>
      match reference_operator stored op val, reference_operators stored rest with
      | inl e, _ => inl e
      | _, inl e => inl e
      | inr b, inr b' => inr (b && b')
      end
  end.

Fixpoint reference_eval (filter : object) (metadata : object) : result bool :=
  match filter with
  | [] => inr true
  | (key, value) :: rest =>
      let stored := default JNull (Store.lookup_key key metadata) in
      let here :=
        match value with
        | JObj ops => reference_operators stored ops
        | _ => inr (typed_compare OpEq stored value)
        end in
      match here, reference_eval rest metadata with
      | inl e, _ => inl e
      | _, inl e => inl e
      | inr b, inr b' => inr (b && b')
      end
  end.

End Reference.

(** ** Concrete collections, requests and services used below *)

Module Examples.
Import Js Filter Store Embeddings Collection.

(** A provider that answers each text with a one-component vector, the
    length of the text. *)
Definition length_provider (model : string) (texts : list string)
    : string + list vector :=
  inr (map (fun t => [Z.of_nat (String.length t)]) texts).

(** A store in which every distance is zero. *)
Definition zero_distance (embedding queryVector metric : string) : string + Q :=
  inr 0%Q.

Definition plain_config : CollectionConfig := mkConfig 2 (Some cosine) None.

Definition embedding_config : CollectionConfig :=
  mkConfig 1 (Some cosine) (Some "text-embedding-ada-002").

Definition row_x_in_a : Row := mkRow "x" "[1,0]" None [] "a".

(** A collection without embedding service, holding document [x] in
    namespace [a]. *)
Definition collection_a : Collection :=
  mkCollection "docs" plain_config None {[ "x" := row_x_in_a ]}.

Definition upsert_x_into_b : UpsertRequest :=
  mkUpsert [mkDocument "x" None None (Some [0; 1]%Z)] (Some "b").

(** A collection with an embedding service and no document. *)
Definition collection_embedding : Collection :=
  mkCollection "docs" embedding_config (Some new_service) ∅.

Definition upsert_vector_and_text : UpsertRequest :=
  mkUpsert [mkDocument "d" (Some "hello") None (Some [7]%Z)] None.

Definition upsert_second_too_long : UpsertRequest :=
  mkUpsert [mkDocument "ok" None None (Some [1; 2]%Z);
            mkDocument "bad" None None (Some [1; 2; 3]%Z)] None.


Definition row_p9 : Row := mkRow "p9" "[1,0]" None [("price", JNum 9)] "default".

Definition collection_prices : Collection :=
  mkCollection "products" plain_config None {[ "p9" := row_p9 ]}.

Definition filter_price_gt_10 : object := [("price", JObj [("$gt", JNum 10)])].

Definition filter_injection : object := [("name", JStr "x' OR '1'='1")].

Definition filter_regex : object := [("tag", JObj [("$regex", JStr "^a")])].

Definition query_topK_0 : QueryRequest :=
  mkQuery (Some [1; 0]%Z) None (Some 0%Z) None None None.

Definition query_vector_and_text : QueryRequest :=
  mkQuery (Some [1; 0]%Z) (Some "shoes") (Some 5%Z) None None None.

Definition query_price_gt_10 : QueryRequest :=
  mkQuery (Some [1; 0]%Z) None None (Some filter_price_gt_10) None None.

Definition query_injection : QueryRequest :=
  mkQuery (Some [1; 0]%Z) None None (Some filter_injection) None None.

Definition filter_comment : object := [("name", JStr "x' OR :topK > 0 --")].

Definition query_comment : QueryRequest :=
  mkQuery (Some [1; 0]%Z) None (Some 1%Z) (Some filter_comment) None None.

End Examples.

(** ** Notions used in the statements *)

Module Notions.
Import Js Filter Store Embeddings Collection.

(** The operator keys [buildFilterConditions] has a [case] for. *)
Definition supported (op : string) : bool :=
  match cmp_op_of op with
  | Some _ => true
  | None => String.eqb op "$in"
  end.

(** The filter without the operator entries that have no [case]. *)
Definition supported_only (filter : object) : object :=
  map (fun kv =>
         if is_object (snd kv)
         then (fst kv, JObj (List.filter (fun e => supported (fst e)) (entries (snd kv))))
         else kv) filter.

Definition without_query (request : QueryRequest) : QueryRequest :=
  mkQuery (q_vector request) None (q_topK request) (q_filter request)
    (q_includeMetadata request) (q_namespace request).

Definition with_topK (request : QueryRequest) (k : option Z) : QueryRequest :=
  mkQuery (q_vector request) (q_query request) k (q_filter request)
    (q_includeMetadata request) (q_namespace request).

(** Is there a fresh cache entry for this text? *)
Definition cached (now : Z) (model : string) (c : list Lru.entry) (text : string)
    : option vector :=
  Lru.peek now (cache_key model text) c.

(** The texts of a call that the cache does not answer, each with its
    position, the first text being at position [i]. *)
Fixpoint pending (now : Z) (model : string) (c : list Lru.entry)
    (texts : list string) (i : nat) : list (string * nat) :=
  match texts with
  | [] => []
  | text :: rest =>
      match cached now model c text with
      | Some _ => pending now model c rest (S i)
      | None => (text, i) :: pending now model c rest (S i)
      end
  end.

(** The vector [embed] owes for a text: the cached one, else the one the
    provider computes. *)
Definition owed (embedding_of : string -> vector) (now : Z) (model : string)
    (c : list Lru.entry) (text : string) : vector :=
  match cached now model c text with
  | Some v => v
  | None => embedding_of text
  end.


(** What the loop of [upsert] makes of one document: its bind set, with
    the explicit vector when the document has one. *)
Definition bind_for (namespace : string) (doc : Document) (b : Row) : Prop :=
  exists v, b = make_bind namespace doc v
            /\ (forall w, doc_vector doc = Some w -> v = w).

(** The provider honours its contract for [model]: one vector per text,
    in the order of the texts. *)
Definition order_preserving (provider : string -> list string -> string + list vector)
    (embedding_of : string -> vector) (model : string) : Prop :=
  forall texts, provider model texts = inr (map embedding_of texts).

(** The requests a service has sent since an earlier state. *)
Definition calls_since (before after : EmbeddingService)
    : list (string * list string) :=
  drop (length (calls before)) (calls after).

End Notions.

(** ** The other statements of the adapter, as the store reads them

    [fetch], [update], [delete] and [stats] send a [SELECT ... IN], an
    [UPDATE], a [DELETE] and a [GROUP BY]; each acts on the rows that satisfy
    its [WHERE] clause. *)

Module Statements.
Import Js Filter Store.

(** Every row is stored under the value of its id column, as a primary key
    has it. *)
Definition keyed (t : gmap string Row) : Prop :=
  forall k r, t !! k = Some r -> ID r = k.

(** [column = :bound] for a bound character value; the empty string is bound
    as NULL and equals nothing. *)
Definition equals_bound (column bound : string) : bool :=
  truthy_string bound && String.eqb column bound.

(** [namespace = :namespace AND id IN (:id0, ..., :idn)] *)
Definition in_namespace_with_id (namespace : string) (ids : list string)
    (r : Row) : bool :=
  String.eqb (NAMESPACE r) namespace && existsb (equals_bound (ID r)) ids.

(** The [SELECT] of [fetch]; with no id the list [IN ()] is malformed. *)
Definition select_by_ids (t : gmap string Row) (namespace : string)
    (ids : list string) : string + list Row :=
  match ids with
  | [] => inl missing_expression
  | _ :: _ => inr (List.filter (in_namespace_with_id namespace ids) (rows t))
  end.

(** The [SET] list of [update]: the columns it assigns. *)
Record Assignment := mkAssignment {
  set_metadata : option object;
  set_text : option string;
  set_embedding : option string
}.

Definition assign (a : Assignment) (r : Row) : Row :=
  mkRow (ID r)
    (default (EMBEDDING r) (set_embedding a))
    (match set_text a with Some s => Some s | None => TEXT r end)
    (default (METADATA r) (set_metadata a))
    (NAMESPACE r).

(** [UPDATE ... SET ... WHERE id = :id AND namespace = :namespace]: the
    table after an [UPDATE] that the store has accepted. *)
Definition update_where (t : gmap string Row) (id namespace : string)
    (a : Assignment) : gmap string Row :=
  (fun r => if equals_bound (ID r) id && String.eqb (NAMESPACE r) namespace
            then assign a r else r) <$> t.

(** [DELETE FROM ... WHERE condition] *)
Definition delete_where (t : gmap string Row) (condition : Row -> bool)
    : gmap string Row :=
  filter (fun kr => condition (snd kr) = false) t.

(** [SELECT namespace, COUNT( * ) ... GROUP BY namespace]: one row per
    namespace that has rows, with their number. *)
Definition count_namespaces (l : list Row) : gmap string nat :=
  foldr (fun r m => <[NAMESPACE r := S (default 0%nat (m !! NAMESPACE r))]> m) ∅ l.

Definition group_by_namespace (t : gmap string Row) : list (string * nat) :=
  map_to_list (count_namespaces (rows t)).

End Statements.

(** ** collection.ts: the constructor, [fetch], [update], [delete], [stats]
       and [parseVector] *)

Module Operations.
Import Js Filter Store Embeddings Collection Statements.

(** [new Collection(name, connection, config)]: the embedding service exists
    when the wallet has an OpenAI key and the configuration names an
    embedding model. *)
Definition new_Collection (name : string) (apiKey : option string)
    (config : CollectionConfig) (t : gmap string Row) : Collection :=
  mkCollection name config
    (match apiKey, embeddingModel config with
     | Some key, Some model =>
         if truthy_string key && truthy_string model then Some new_service else None
     | _, _ => None
     end)
    t.

(** What [parseFloat] reads: an integer, [NaN], or a number that is not
    evaluated here (a point or an exponent mark follows the digits, or the
    text is [Infinity]); nothing is stated about the value of [Beyond]. *)
Inductive parsed : Type :=
| Parsed (n : Z)
| NaN
| Beyond.

(** The white space [trim] removes, among the one-byte characters. *)
Definition is_space (c : ascii) : bool :=
  let n := nat_of_ascii c in
  (n =? 32)%nat || ((9 <=? n)%nat && (n <=? 13)%nat).

Fixpoint trim_start (s : string) : string :=
  match s with
  | String c rest => if is_space c then trim_start rest else s
  | EmptyString => ""
  end.

Fixpoint trim_end (s : string) : string :=
  match s with
  | EmptyString => ""
  | String c rest =>
      match trim_end rest with
      | EmptyString => if is_space c then "" else String c ""
      | rest' => String c rest'
      end
  end.

(** [s.trim()] *)
Definition trim (s : string) : string := trim_end (trim_start s).

(** [s.replace(/[\[\]]/g, '')] *)
Fixpoint remove_brackets (s : string) : string :=
  match s with
  | EmptyString => ""
  | String c rest =>
      if Ascii.eqb c "[" || Ascii.eqb c "]" then remove_brackets rest
      else String c (remove_brackets rest)
  end.

(** [s.split(',')]: the empty string splits into one empty piece. *)
Fixpoint split_comma (s : string) : list string :=
  match s with
  | EmptyString => [""]
  | String c rest =>
      if Ascii.eqb c "," then "" :: split_comma rest
      else match split_comma rest with
           | piece :: pieces => String c piece :: pieces
           | [] => [String c ""]
           end
  end.

Definition digit_of (c : ascii) : option (Decimal.uint -> Decimal.uint) :=
  if Ascii.eqb c "0" then Some Decimal.D0
  else if Ascii.eqb c "1" then Some Decimal.D1
  else if Ascii.eqb c "2" then Some Decimal.D2
  else if Ascii.eqb c "3" then Some Decimal.D3
  else if Ascii.eqb c "4" then Some Decimal.D4
  else if Ascii.eqb c "5" then Some Decimal.D5
  else if Ascii.eqb c "6" then Some Decimal.D6
  else if Ascii.eqb c "7" then Some Decimal.D7
  else if Ascii.eqb c "8" then Some Decimal.D8
  else if Ascii.eqb c "9" then Some Decimal.D9
  else None.

(** The leading decimal digits of a text, and what follows them. *)
Fixpoint read_digits (s : string) : Decimal.uint * string :=
  match s with
  | EmptyString => (Decimal.Nil, "")
  | String c rest =>
      match digit_of c with
      | Some d => let (u, after) := read_digits rest in (d u, after)
      | None => (Decimal.Nil, s)
      end
  end.

Definition read_sign (s : string) : bool * string :=
  match s with
  | String c rest =>
      if Ascii.eqb c "-" then (true, rest)
      else if Ascii.eqb c "+" then (false, rest)
      else (false, s)
  | EmptyString => (false, s)
  end.

(** The numeric prefix of a text whose sign has been read. *)
Definition read_number (negative : bool) (body : string) : parsed :=
  match read_digits body with
  | (Decimal.Nil, after) =>
      match after with
      | String c fraction =>
          if Ascii.eqb c "." then
            match read_digits fraction with
            | (Decimal.Nil, _) => NaN
            | _ => Beyond
            end
          else NaN
      | EmptyString => NaN
      end
  | (u, after) =>
      match after with
      | String c _ =>
          if Ascii.eqb c "." || Ascii.eqb c "e" || Ascii.eqb c "E" then Beyond
          else Parsed (if negative then - Z.of_uint u else Z.of_uint u)
      | EmptyString => Parsed (if negative then - Z.of_uint u else Z.of_uint u)
      end
  end.

(** [parseFloat(s)]: leading white space is skipped, then the longest
    numeric prefix is read; without one the answer is [NaN]. *)
Definition parseFloat (s : string) : parsed :=
  let (negative, body) := read_sign (trim_start s) in
  if String.prefix "Infinity" body then Beyond else read_number negative body.

(** [parseVector(vectorString)] *)
Definition parseVector (vectorString : string) : list parsed :=
  if truthy_string vectorString then
    map (fun v => parseFloat (trim v)) (split_comma (remove_brackets vectorString))
  else [].

Record FetchRequest := mkFetch {
  f_ids : list string;
  f_namespace : option string
}.

(** A document as [fetch] returns it. *)
Record FetchedDocument := mkFetched {
  fd_id : string;
  fd_text : option string;
  fd_metadata : object;
  fd_vector : list parsed
}.

Definition to_document (r : Row) : FetchedDocument :=
  mkFetched (ID r) (TEXT r) (METADATA r) (parseVector (EMBEDDING r)).

(** [fetch(request)] *)
Definition fetch (c : Collection) (request : FetchRequest)
    : result (list FetchedDocument) :=
  match select_by_ids (table c) (string_or (f_namespace request) "default")
          (f_ids request) with
  | inl e => inl (CollectionError ("Failed to fetch documents: " +:+ e))
  | inr found => inr (map to_document found)
  end.

Record UpdateRequest := mkUpdate {
  up_id : string;
  up_metadata : option object;
  up_text : option string;
  up_namespace : option string
}.

(** [request.text], when it is truthy. *)
Definition update_text (request : UpdateRequest) : option string :=
  match up_text request with
  | Some s => if truthy_string s then Some s else None
  | None => None
  end.

(** The end of [update], once the [SET] list is built: without any
    assignment it throws, otherwise it runs the [UPDATE]. *)
Definition run_update (c : Collection) (request : UpdateRequest)
    (embedding : option string) : result unit * Collection :=
  match up_metadata request, update_text request with
  | None, None => (inl (ValidationError "No updates provided"), c)
  | _, _ =>
      (inr tt,
       with_table c
         (update_where (table c) (up_id request)
            (string_or (up_namespace request) "default")
            (mkAssignment (up_metadata request) (update_text request) embedding)))
  end.

Record DeleteRequest := mkDelete {
  d_ids : option (list string);
  d_filter : option object;
  d_deleteAll : option bool;
  d_namespace : option string
}.

(** The table after the id part of [delete]. *)
Definition delete_ids (t : gmap string Row) (namespace : string)
    (ids : option (list string)) : gmap string Row :=
  match ids with
  | Some (id :: more) => delete_where t (in_namespace_with_id namespace (id :: more))
  | _ => t
  end.

(** [delete(request)].  The [DELETE] by filter carries the rendered
    conditions in its text; the rows it removes are those [selected] when
    the conditions are closed. *)
Definition delete (c : Collection) (request : DeleteRequest)
    : result unit * Collection :=
  let namespace := string_or (d_namespace request) "default" in
  if default false (d_deleteAll request) then
    (inr tt,
     with_table c (delete_where (table c) (fun r => String.eqb (NAMESPACE r) namespace)))
  else
    let t := delete_ids (table c) namespace (d_ids request) in
    match d_filter request with
    | None => (inr tt, with_table c t)
    | Some filter =>
        match compile filter with
        | inl e => (inl e, with_table c t)
        | inr conditions =>
            if truthy_string (String.concat " AND " (map render conditions)) then
              if malformed conditions then
                (inl (CollectionError
                        ("Failed to delete documents by filter: " +:+ missing_expression)),
                 with_table c t)
              else
                (inr tt, with_table c (delete_where t (selected namespace conditions)))
            else (inr tt, with_table c t)
        end
    end.

Record CollectionStats := mkStats {
  documentCount : nat;
  namespaces : gmap string nat;
  stats_dimension : Z;
  indexFullness : Q;
  totalDocuments : nat
}.

(** The property key that [row.NAMESPACE] is used as: the text of the
    column, and [null] for a NULL. *)
Definition property_key (namespace : string) : string :=
  if truthy_string namespace then namespace else "null".

(** [namespaces[key] = n] on an object literal.  The key [__proto__] is the
    accessor of the prototype: assigning a number to it makes no entry. *)
Definition set_property (namespaces : gmap string nat) (key : string) (n : nat)
    : gmap string nat :=
  if String.eqb key "__proto__" then namespaces else <[key := n]> namespaces.

(** The [forEach] of [stats] over the rows of the [GROUP BY]. *)
Definition tally (groups : list (string * nat)) : gmap string nat * nat :=
  foldl (fun acc row =>
           (set_property (fst acc) (property_key (fst row)) (snd row),
            (snd acc + snd row)%nat))
    (∅, 0%nat) groups.

(** [stats()] *)
Definition stats (c : Collection) : result CollectionStats :=
  let (namespaces, totalDocuments) := tally (group_by_namespace (table c)) in
  inr (mkStats totalDocuments namespaces (dimension (config c))
         (Z.of_nat totalDocuments # 1000000) totalDocuments).

Section WithProvider.

Variable provider : string -> list string -> string + list vector.

(** [update(request)] *)
Definition update (now : Z) (c : Collection) (request : UpdateRequest)
    : result unit * Collection :=
  match update_text request, embedding_setup c with
  | Some text, Some (svc, model) =>
      match embedSingle provider now svc text model with
      | (inl e, svc') => (inl e, with_service c svc')
      | (inr embedding, svc') =>
          run_update (with_service c svc') request (Some (vector_literal embedding))
      end
  | _, _ => run_update c request None
  end.

End WithProvider.

End Operations.

(** ** embeddings.ts: [clearCache] *)

Module Clearing.
Import Embeddings.

(** [clearCache()] *)
Definition clearCache (svc : EmbeddingService) : EmbeddingService :=
  Service [] (calls svc).

End Clearing.

(** ** client.ts: the configuration of a collection that is opened, not
       created *)

Module Client.
Import Js Embeddings Collection.

(** A row of [user_tab_columns]. *)
Record Column := mkColumn {
  COLUMN_NAME : string;
  DATA_TYPE : string
}.

(** [extractDimension(_vectorColumn)] *)
Definition extractDimension (vectorColumn : Column) : Z := 1536.

(** The [dimension] of [describeCollection]: that of the first column of
    type [VECTOR], [null] without one. *)
Definition described_dimension (columns : list Column) : option Z :=
  match List.find (fun col => String.eqb (DATA_TYPE col) "VECTOR") columns with
  | Some vectorCol => Some (extractDimension vectorCol)
  | None => None
  end.

(** [getCollectionConfig(name)], from the columns [describeCollection] read. *)
Definition getCollectionConfig (columns : list Column) : CollectionConfig :=
  mkConfig
    (match described_dimension columns with
     | Some d => if (d =? 0)%Z then 1536%Z else d
     | None => 1536%Z
     end)
    (Some cosine) (Some "text-embedding-ada-002").

End Client.

(** ** Further notions and inputs used in the statements *)

Module MoreNotions.
Import Js Filter Store Embeddings Collection Notions Statements Operations.

(** No fresh cache entry answers this text. *)
Definition uncached (now : Z) (model : string) (c : list Lru.entry)
    (text : string) : bool :=
  match cached now model c text with
  | None => true
  | Some _ => false
  end.

(** The rows of a table that are in a namespace. *)
Definition rows_in (namespace : string) (t : gmap string Row) : list Row :=
  List.filter (fun r => String.eqb (NAMESPACE r) namespace) (rows t).

(** Does every character of a text satisfy a test? *)
Fixpoint all_chars (test : ascii -> bool) (s : string) : bool :=
  match s with
  | EmptyString => true
  | String c rest => test c && all_chars test rest
  end.

(** The characters of a printed integer: the digits and the minus sign. *)
Definition numeric_char (c : ascii) : bool :=
  match digit_of c with
  | Some _ => true
  | None => Ascii.eqb c "-"
  end.

(** [doc.text || null] *)
Definition stored_text (doc : Document) : option string :=
  match doc_text doc with
  | Some s => if truthy_string s then Some s else None
  | None => None
  end.

(** The vector [upsert] resolves for a document when the embedding service
    is set up: the explicit one, else the one owed for its text. *)
Definition resolved (embedding_of : string -> vector) (now : Z) (model : string)
    (svc : EmbeddingService) (doc : Document) : vector :=
  default (owed embedding_of now model (cache svc) (text_to_embed doc))
    (doc_vector doc).

Definition with_vector (request : QueryRequest) (v : vector) : QueryRequest :=
  mkQuery (Some v) (q_query request) (q_topK request) (q_filter request)
    (q_includeMetadata request) (q_namespace request).

(** A provider that fails on every request. *)
Definition failing_provider (model : string) (texts : list string)
    : string + list vector :=
  inl "Error: 429 rate limit".

Definition row_y_in_b : Row := mkRow "y" "[2,3]" (Some "why") [("k", JNum 1)] "b".

(** A collection without embedding service holding [x] in namespace [a] and
    [y] in namespace [b]. *)
Definition collection_ab : Collection :=
  mkCollection "docs" Examples.plain_config None
    (<["y" := row_y_in_b]> {[ "x" := Examples.row_x_in_a ]}).

(** The answer of [Examples.length_provider] to one text. *)
Definition length_embedding (text : string) : vector :=
  [Z.of_nat (String.length text)].

Definition row_d : Row := mkRow "d" "[7]" (Some "old") [] "default".

(** A collection with an embedding service holding document [d]. *)
Definition collection_embedding_d : Collection :=
  mkCollection "docs" Examples.embedding_config (Some new_service) {[ "d" := row_d ]}.

Definition upsert_text_only : UpsertRequest :=
  mkUpsert [mkDocument "d" (Some "hello") None None] None.

Definition upsert_1536 : UpsertRequest :=
  mkUpsert [mkDocument "v" None None (Some (replicate 1536 0%Z))] None.

Definition fetch_x_in_a : FetchRequest := mkFetch ["x"; "zz"] (Some "a").

Definition update_x_metadata : UpdateRequest :=
  mkUpdate "x" (Some [("k", JNum 2)]) None (Some "a").

Definition update_x_text : UpdateRequest :=
  mkUpdate "x" None (Some "new text") (Some "a").

Definition update_d_text : UpdateRequest :=
  mkUpdate "d" None (Some "hello") None.

Definition delete_x_in_a : DeleteRequest :=
  mkDelete (Some ["x"]) None None (Some "a").

Definition delete_k_in_b : DeleteRequest :=
  mkDelete None (Some [("k", JNum 1)]) None (Some "b").

Definition delete_x_and_bad_filter : DeleteRequest :=
  mkDelete (Some ["x"]) (Some [("k", JObj [("$in", JStr "v")])]) None (Some "a").

Definition query_text : QueryRequest :=
  mkQuery None (Some "hello") None None None None.

End MoreNotions.

Import Js Filter Store Embeddings Collection Notions.

(** * Properties *)

(** ** The filter compiler *)

Lemma operator_conditions_supported key ops conditions :
  operator_conditions key (List.filter (fun e => supported (fst e)) ops) conditions
  = operator_conditions key ops conditions.
Proof.
  revert conditions.
  induction ops as [|[op val] ops IH]; intros conditions; [reflexivity|].
  cbn [List.filter fst]. unfold supported.
  destruct (cmp_op_of op) as [o|] eqn:Hop.
  - cbn [operator_conditions]. rewrite Hop. apply IH.
  - destruct (String.eqb op "$in") eqn:Hin.
    + cbn [operator_conditions]. rewrite Hop, Hin.
      destruct (in_literals val); [reflexivity|apply IH].
    + cbn [operator_conditions]. rewrite Hop, Hin. apply IH.
Qed.

Lemma filter_conditions_supported filter conditions :
  filter_conditions (supported_only filter) conditions
  = filter_conditions filter conditions.
Proof.
  revert conditions.
  induction filter as [|[key value] filter IH]; intros conditions; [reflexivity|].
  cbn [supported_only map snd fst filter_conditions].
  destruct (is_object value) eqn:Hobj.
  - cbn [filter_conditions is_object entries].
    rewrite operator_conditions_supported.
    destruct (operator_conditions key (entries value) conditions); [reflexivity|].
    apply IH.
  - cbn [filter_conditions]. rewrite Hobj. apply IH.
Qed.

Lemma operator_conditions_error key ops conditions e :
  operator_conditions key ops conditions = inl e -> exists m, e = TypeError m.
Proof.
  revert conditions.
  induction ops as [|[op val] ops IH]; intros conditions; cbn; [discriminate|].
  destruct (cmp_op_of op); [apply IH|].
  destruct (String.eqb op "$in"); [|apply IH].
  destruct (in_literals val) as [e'|l] eqn:Hin; [|apply IH].
  intros [= <-]. destruct val; cbn in Hin; inversion Hin; eauto.
Qed.

Lemma compile_error filter e :
  compile filter = inl e -> exists m, e = TypeError m.
Proof.
  unfold compile. generalize (@nil Condition).
  induction filter as [|[key value] filter IH]; intros conditions; cbn; [discriminate|].
  destruct (is_object value); [|apply IH].
  destruct (operator_conditions key (entries value) conditions) eqn:Hops; [|apply IH].
  intros [= <-]. eapply operator_conditions_error, Hops.
Qed.

(** C1.  The literal of a filter is written into the statement text: for
    the filter [{ name: "x' OR '1'='1" }] the compiled predicate is
    [JSON_VALUE(metadata, '$.name') = 'x' OR '1'='1'], the literal sits in
    the text of the statement [search] sends, and the bind variables of that
    statement are the query vector, the namespace and topK only. *)
Theorem filter_literal_in_statement_text :
  buildFilterConditions Examples.filter_injection
    = inr "JSON_VALUE(metadata, '$.name') = 'x' OR '1'='1'"
  /\ (exists before after,
        search_statement Examples.collection_prices Examples.query_injection
        = inr (before +:+ "'x' OR '1'='1'" +:+ after))
  /\ search_binds Examples.query_injection [1; 0]%Z = mkBinds "[1,0]" "default" 10.
Proof.
  split; [reflexivity|]. split; [|reflexivity].
  set (tail := " ORDER BY score ASC FETCH FIRST :topK ROWS ONLY").
  set (sql := search_sql Examples.collection_prices
                "JSON_VALUE(metadata, '$.name') = 'x' OR '1'='1'").
  exists (String.substring 0
            (String.length sql - String.length tail - String.length "'x' OR '1'='1'")
            sql), tail.
  vm_compute. reflexivity.
Qed.

(** C2.  A numeric metadata value is compared as text: for a document with
    [price: 9] and the filter [{ price: { $gt: 10 } }] the compiled
    predicate is [JSON_VALUE(metadata, '$.price') > '10'], which holds for
    the stored text [9], so [search] returns the document; the reference
    evaluator compares the numbers and does not select it. *)
Theorem numeric_filter_compared_as_text :
  compile Examples.filter_price_gt_10 = inr [Compare "price" OpGt "10"]
  /\ selected "default" [Compare "price" OpGt "10"] Examples.row_p9 = true
  /\ Reference.reference_eval Examples.filter_price_gt_10 (METADATA Examples.row_p9)
     = inr false
  /\ (exists resp,
        search Examples.length_provider Examples.zero_distance 0
          Examples.collection_prices Examples.query_price_gt_10
        = (inr resp, Examples.collection_prices)
        /\ map m_id (matches resp) = ["p9"]).
Proof.
  repeat split; try reflexivity.
  eexists. split; vm_compute; reflexivity.
Qed.

(** C8, the claim refuted: the operator [$regex] is none of the seven, and
    the filter [{ tag: { $regex: "^a" } }] compiles, to the empty predicate. *)
Lemma unsupported_operator_compiles :
  supported "$regex" = false
  /\ buildFilterConditions Examples.filter_regex = inr ""
  /\ is_validation_error (buildFilterConditions Examples.filter_regex) = false.
Proof. repeat split; reflexivity. Qed.

(** C8, as the code has it: compiling a filter never raises a
    [ValidationError], and an operator key outside the seven adds nothing to
    the predicate, which is that of the filter without those entries. *)
Theorem unsupported_operators_ignored (filter : object) :
  is_validation_error (buildFilterConditions filter) = false
  /\ buildFilterConditions filter = buildFilterConditions (supported_only filter).
Proof.
  unfold buildFilterConditions, compile.
  rewrite filter_conditions_supported. split; [|reflexivity].
  destruct (filter_conditions filter []) as [e|conditions] eqn:Hc; [|reflexivity].
  apply compile_error in Hc as [m ->]. reflexivity.
Qed.

(** ** search *)

Section SearchProperties.

Variable provider : string -> list string -> string + list vector.
Variable vector_distance : string -> string -> string -> string + Q.

Lemma search_with_length c request v resp :
  search_with vector_distance c request v = inr resp ->
  (length (matches resp) <= Z.to_nat (effective_topK request))%nat.
Proof.
  unfold search_with, select_nearest. cbn [search_binds b_topK].
  destruct (request_conditions request) as [e|conditions]; [discriminate|].
  destruct (malformed conditions); [discriminate|].
  destruct (score_rows _ _ _ _) as [e|scored]; [discriminate|].
  intros [= <-]. cbn [matches].
  rewrite length_map, length_take. lia.
Qed.

Lemma search_with_not_validation c request v :
  is_validation_error (search_with vector_distance c request v) = false.
Proof.
  unfold search_with.
  destruct (request_conditions request) as [e|conditions] eqn:Hc.
  - unfold request_conditions in Hc. destruct (q_filter request); [|discriminate].
    apply compile_error in Hc as [m ->]. reflexivity.
  - destruct (select_nearest _ _ _ _ _ _ _); reflexivity.
Qed.

Lemma search_validation_error now c request :
  is_validation_error (fst (search provider vector_distance now c request))
  = match q_vector request, q_query request with
    | Some _, _ => false
    | None, Some query => negb (truthy_string query)
    | None, None => true
    end.
Proof.
  unfold search.
  destruct (q_vector request) as [v|]; [apply search_with_not_validation|].
  destruct (q_query request) as [query|]; [|reflexivity].
  destruct (truthy_string query); [|reflexivity].
  destruct (embedding_setup c) as [[svc model]|]; [|reflexivity].
  destruct (embedSingle provider now svc query model) as [[e|qv] svc'] eqn:He.
  - cbn. unfold embedSingle in He.
    destruct (Lru.get _ _ _) as [[cached|] c0]; [discriminate|].
    destruct (provider model [query]) as [err|[|response data]];
      inversion He; reflexivity.
  - cbn. apply search_with_not_validation.
Qed.

(** C7, as the code has it: when no key and no literal of the filter has
    a single quote, the matches returned are at most the effective topK,
    which is the requested topK when that is present and not zero, and 10
    otherwise (a negative topK leaves no match); whatever topK and the
    filter are, topK never decides whether a [ValidationError] is raised.
    The filter is written on the line of the statement that carries the
    limit, so the bound is stated for closed filters only. *)
Theorem search_at_most_effective_topK now c request :
  (closed_filter (q_filter request) = true ->
   forall resp c',
      search provider vector_distance now c request = (inr resp, c') ->
      (length (matches resp) <= Z.to_nat (effective_topK request))%nat)
  /\ (forall k,
        is_validation_error
          (fst (search provider vector_distance now c (with_topK request k)))
        = is_validation_error
            (fst (search provider vector_distance now c request))).
Proof.
  split.
  - intros _ resp c'. unfold search.
    destruct (q_vector request) as [v|].
    { intros [= H _]. eapply search_with_length, H. }
    destruct (q_query request) as [query|]; [|discriminate].
    destruct (truthy_string query); [|discriminate].
    destruct (embedding_setup c) as [[svc model]|]; [|discriminate].
    destruct (embedSingle provider now svc query model) as [[e|qv] svc'];
      [discriminate|].
    intros [= H _]. eapply search_with_length, H.
  - intros k. rewrite !search_validation_error. reflexivity.
Qed.

(** C10.  With an explicit vector and a query text, [search] runs the
    query on the explicit vector; the collection, and with it the cache
    and the list of provider calls of its embedding service, is left as it
    was; the outcome is that of the same request without the query text,
    and it is no [ValidationError]. *)
Theorem search_explicit_vector_wins now c request v query :
  q_vector request = Some v ->
  q_query request = Some query ->
  search provider vector_distance now c request
    = (search_with vector_distance c request v, c)
  /\ search provider vector_distance now c request
     = search provider vector_distance now c (without_query request)
  /\ is_validation_error
       (fst (search provider vector_distance now c request)) = false.
Proof.
  intros Hv Hq.
  assert (Hs : search provider vector_distance now c request
               = (search_with vector_distance c request v, c)).
  { unfold search. rewrite Hv. reflexivity. }
  split; [exact Hs|]. split.
  - rewrite Hs. unfold search. cbn [without_query q_vector]. rewrite Hv.
    reflexivity.
  - rewrite Hs. apply search_with_not_validation.
Qed.

End SearchProperties.

(** C7, the claim refuted: with [topK: 0] the search raises nothing and
    returns a match, more than the zero requested. *)
Lemma search_topK_zero_returns_a_match :
  q_topK Examples.query_topK_0 = Some 0%Z
  /\ exists resp,
       search Examples.length_provider Examples.zero_distance 0
         Examples.collection_prices Examples.query_topK_0
       = (inr resp, Examples.collection_prices)
       /\ map m_id (matches resp) = ["p9"]
       /\ length (matches resp) = 1%nat.
Proof.
  split; [reflexivity|].
  eexists. repeat split; vm_compute; reflexivity.
Qed.

(** Why the bound of C7 is stated for closed filters: the literal of
    [Examples.filter_comment] has a single quote, and what follows it stands
    in the statement on the line of [FETCH FIRST], in front of it. *)
Example filter_literal_on_the_line_of_the_limit :
  closed_filter (q_filter Examples.query_comment) = false
  /\ match search_statement Examples.collection_prices Examples.query_comment with
     | inr text => String.substring (String.length text - 105) 105 text
     | inl _ => EmptyString
     end
     = " AND JSON_VALUE(metadata, '$.name') = 'x' OR :topK > 0 --'"
       +:+ " ORDER BY score ASC FETCH FIRST :topK ROWS ONLY".
Proof. split; vm_compute; reflexivity. Qed.

Lemma search_at_most_effective_topK_witness :
  (length (map (to_match Examples.query_topK_0) [(0%Q, Examples.row_p9)])
   <= Z.to_nat (effective_topK Examples.query_topK_0))%nat.
Proof.
  refine (proj1 (search_at_most_effective_topK Examples.length_provider
                   Examples.zero_distance 0 Examples.collection_prices
                   Examples.query_topK_0) eq_refl (mkResponse _ "default") _ _).
  vm_compute. reflexivity.
Defined.

Lemma search_explicit_vector_wins_witness :
  is_validation_error
    (fst (search Examples.length_provider Examples.zero_distance 0
            Examples.collection_prices Examples.query_vector_and_text)) = false.
Proof.
  refine (proj2 (proj2 (search_explicit_vector_wins Examples.length_provider
                          Examples.zero_distance 0 Examples.collection_prices
                          Examples.query_vector_and_text [1; 0]%Z "shoes" _ _)));
    reflexivity.
Defined.

(** ** The table under [MERGE] *)

Lemma executeMany_merge_other (binds : list Row) (t : gmap string Row) (k : string) :
  k ∉ map ID binds -> executeMany_merge t binds !! k = t !! k.
Proof.
  revert t. induction binds as [|b binds IH]; intros t Hk; [reflexivity|].
  cbn in *. apply not_elem_of_cons in Hk as [Hne Hk].
  unfold executeMany_merge in IH. rewrite IH by exact Hk.
  unfold merge. apply lookup_insert_ne. congruence.
Qed.

Lemma executeMany_merge_last (pre post : list Row) (b : Row) (t : gmap string Row) :
  ID b ∉ map ID post ->
  executeMany_merge t (pre ++ b :: post) !! ID b = Some b.
Proof.
  intros Hpost. unfold executeMany_merge. rewrite foldl_app. cbn [foldl].
  fold (executeMany_merge (merge (foldl merge t pre) b) post).
  rewrite executeMany_merge_other by exact Hpost.
  unfold merge. apply lookup_insert_eq.
Qed.

Lemma executeMany_merge_member (binds : list Row) (t : gmap string Row) (k : string) :
  k ∈ map ID binds ->
  exists b, b ∈ binds /\ ID b = k /\ executeMany_merge t binds !! k = Some b.
Proof.
  induction binds as [|b binds IH] using rev_ind; intros Hk.
  - cbn in Hk. apply elem_of_nil in Hk as [].
  - rewrite map_app in Hk. apply elem_of_app in Hk.
    destruct (decide (ID b = k)) as [<-|Hne].
    + exists b. split; [apply elem_of_app; right; apply list_elem_of_here|].
      split; [reflexivity|].
      apply (executeMany_merge_last binds [] b). cbn. apply not_elem_of_nil.
    + destruct Hk as [Hk|Hk].
      * destruct (IH Hk) as (b' & Hin & Hid & Hlook).
        exists b'. split; [apply elem_of_app; left; exact Hin|].
        split; [exact Hid|].
        unfold executeMany_merge in *. rewrite foldl_app. cbn.
        unfold merge at 1. rewrite lookup_insert_ne by exact Hne. exact Hlook.
      * cbn in Hk. apply list_elem_of_singleton in Hk. congruence.
Qed.

(** ** upsert *)

Lemma collect_binds_ok c namespace embeddings documents i binds out :
  collect_binds c namespace embeddings documents i binds = inr out ->
  exists new, out = binds ++ new /\ Forall2 (bind_for namespace) documents new.
Proof.
  revert i binds.
  induction documents as [|doc documents IH]; intros i binds; cbn.
  - intros [= <-]. exists []. rewrite app_nil_r. split; [reflexivity|constructor].
  - destruct (resolve_vector doc embeddings i) as [vec|] eqn:Hv; [|discriminate].
    destruct (Z.of_nat (length vec) =? dimension (config c))%Z; [|discriminate].
    intros H. apply IH in H as (new & -> & HF).
    exists (make_bind namespace doc vec :: new).
    rewrite <- app_assoc. split; [reflexivity|].
    constructor; [|exact HF].
    exists vec. split; [reflexivity|].
    intros w Hw. unfold resolve_vector in Hv. rewrite Hw in Hv. congruence.
Qed.

Lemma bind_for_ids namespace documents new :
  Forall2 (bind_for namespace) documents new ->
  map ID new = map doc_id documents.
Proof.
  induction 1 as [|doc b documents new (v & -> & _) _ IH]; [reflexivity|].
  cbn. rewrite IH. reflexivity.
Qed.


Section UpsertProperties.

Variable provider : string -> list string -> string + list vector.

Lemma generate_embeddings_table now completion c documents r c1 :
  generate_embeddings provider now completion c documents = (r, c1) ->
  table c1 = table c /\ config c1 = config c /\ name c1 = name c
  /\ (embedding_setup c = None -> c1 = c).
Proof.
  unfold generate_embeddings.
  destruct (embedding_setup c) as [[svc model]|].
  - destruct (embed provider now completion svc _ model) as [r' svc'].
    intros [= _ <-]. repeat split. discriminate.
  - intros [= _ <-]. repeat split.
Qed.

Lemma upsert_ok now completion c request c' :
  upsert provider now completion c request = (inr tt, c') ->
  exists c1 new,
    table c1 = table c
    /\ (embedding_setup c = None -> c1 = c)
    /\ Forall2 (bind_for (string_or (u_namespace request) "default"))
         (u_documents request) new
    /\ c' = with_table c1 (executeMany_merge (table c1) new).
Proof.
  unfold upsert.
  destruct (u_documents request) as [|doc documents] eqn:Hdocs; [discriminate|].
  destruct (generate_embeddings provider now completion c (doc :: documents))
    as [[e|embeddings] c1] eqn:Hg; [discriminate|].
  apply generate_embeddings_table in Hg as (Ht & _ & _ & Hnone).
  destruct (collect_binds c1 _ embeddings (doc :: documents) 0 [])
    as [e|binds] eqn:Hb; [discriminate|].
  apply collect_binds_ok in Hb as (new & -> & HF).
  intros [= <-]. exists c1, new. auto.
Qed.

End UpsertProperties.


Section UpsertClaims.

Variable provider : string -> list string -> string + list vector.

(** C3, as the code has it: the table is keyed by the id alone.  After
    an upsert every document of the request has exactly the row under its
    id, in the namespace of the request, whichever namespace that id was
    in before; the rows of all other ids are untouched. *)
Theorem upsert_keyed_by_id now completion c request c' :
  upsert provider now completion c request = (inr tt, c') ->
  (forall doc, doc ∈ u_documents request ->
     exists r, table c' !! doc_id doc = Some r
               /\ ID r = doc_id doc
               /\ NAMESPACE r = string_or (u_namespace request) "default")
  /\ (forall k, k ∉ map doc_id (u_documents request) ->
        table c' !! k = table c !! k).
Proof.
  intros H. apply upsert_ok in H as (c1 & new & Ht & _ & HF & ->).
  cbn [with_table table]. rewrite Ht.
  pose proof (bind_for_ids _ _ _ HF) as Hids.
  split.
  - intros doc Hdoc.
    assert (Hk : doc_id doc ∈ map ID new).
    { rewrite Hids. apply list_elem_of_fmap. exists doc. split; [reflexivity|exact Hdoc]. }
    destruct (executeMany_merge_member new (table c) _ Hk) as (b & Hb & Hid & Hlook).
    exists b. split; [exact Hlook|]. split; [exact Hid|].
    apply list_elem_of_lookup in Hb as [j Hj].
    destruct (Forall2_lookup_r _ _ _ _ _ HF Hj) as (d & _ & v & -> & _).
    reflexivity.
  - intros k Hk. apply executeMany_merge_other. rewrite Hids. exact Hk.
Qed.

(** C6, as the code has it: a document that carries an explicit vector
    (with or without a text) is stored with that vector, provided the
    upsert succeeds and no later document of the batch has its id; and
    when the collection has no embedding service or no embedding model, the
    upsert leaves the embedding service as it was, so no provider call is
    made. *)
Theorem upsert_explicit_vector_stored now completion c request c' pre doc post v :
  upsert provider now completion c request = (inr tt, c') ->
  u_documents request = pre ++ doc :: post ->
  doc_vector doc = Some v ->
  doc_id doc ∉ map doc_id post ->
  (exists r, table c' !! doc_id doc = Some r /\ EMBEDDING r = vector_literal v)
  /\ (embedding_setup c = None -> embeddingService c' = embeddingService c).
Proof.
  intros H Hdocs Hv Hpost.
  apply upsert_ok in H as (c1 & new & Ht & Hnone & HF & ->).
  split.
  - rewrite Hdocs in HF.
    apply Forall2_app_inv_l in HF as (new1 & new2 & HF1 & HF2 & ->).
    apply Forall2_cons_inv_l in HF2 as (b & new3 & (w & -> & Hw) & HF3 & ->).
    rewrite (Hw v Hv).
    exists (make_bind (string_or (u_namespace request) "default") doc v).
    split; [|reflexivity].
    cbn [with_table table].
    apply (executeMany_merge_last new1 new3
             (make_bind (string_or (u_namespace request) "default") doc v)).
    rewrite (bind_for_ids _ _ _ HF3). exact Hpost.
  - intros Hn. rewrite (Hnone Hn). reflexivity.
Qed.


End UpsertClaims.

(** C3, the claim refuted: document [x] is in namespace [a]; upserting a
    document with id [x] into namespace [b] succeeds and leaves one row, the
    new one in [b]: the document of namespace [a] is no longer there. *)
Lemma upsert_moves_document_between_namespaces :
  table Examples.collection_a !! "x" = Some Examples.row_x_in_a
  /\ NAMESPACE Examples.row_x_in_a = "a"
  /\ u_namespace Examples.upsert_x_into_b = Some "b"
  /\ exists c',
       upsert Examples.length_provider 0 [] Examples.collection_a
         Examples.upsert_x_into_b = (inr tt, c')
       /\ table c' !! "x" = Some (mkRow "x" "[0,1]" None [] "b")
       /\ rows (table c') = [mkRow "x" "[0,1]" None [] "b"].
Proof.
  repeat split.
  eexists. split; [vm_compute; reflexivity|]. split; vm_compute; reflexivity.
Qed.

Lemma upsert_keyed_by_id_witness :
  exists r,
    table (snd (upsert Examples.length_provider 0 [] Examples.collection_a
                  Examples.upsert_x_into_b)) !! "x" = Some r
    /\ ID r = "x" /\ NAMESPACE r = "b".
Proof.
  refine (proj1 (upsert_keyed_by_id Examples.length_provider 0 []
                   Examples.collection_a Examples.upsert_x_into_b _ _)
            (mkDocument "x" None None (Some [0; 1]%Z)) _).
  - vm_compute. reflexivity.
  - apply list_elem_of_here.
Defined.


(** C6, the claim refuted: the collection has an embedding service; the
    document carries the vector [[7]] and the text [hello].  The upsert
    stores the explicit vector, and the provider has been asked to embed
    [hello]. *)
Lemma upsert_embeds_text_despite_vector :
  exists c',
    upsert Examples.length_provider 0 [0%nat] Examples.collection_embedding
      Examples.upsert_vector_and_text = (inr tt, c')
    /\ EMBEDDING <$> table c' !! "d" = Some "[7]"
    /\ calls <$> embeddingService c'
       = Some [("text-embedding-ada-002", ["hello"])].
Proof.
  eexists. split; [vm_compute; reflexivity|]. split; vm_compute; reflexivity.
Qed.

Lemma upsert_explicit_vector_stored_witness :
  (exists r,
     table (snd (upsert Examples.length_provider 0 [] Examples.collection_a
                   Examples.upsert_x_into_b)) !! "x" = Some r
     /\ EMBEDDING r = "[0,1]")
  /\ (embedding_setup Examples.collection_a = None ->
      embeddingService
        (snd (upsert Examples.length_provider 0 [] Examples.collection_a
                Examples.upsert_x_into_b))
      = embeddingService Examples.collection_a).
Proof.
  refine (upsert_explicit_vector_stored Examples.length_provider 0 []
            Examples.collection_a Examples.upsert_x_into_b _
            [] (mkDocument "x" None None (Some [0; 1]%Z)) [] [0; 1]%Z _ _ _ _).
  - vm_compute. reflexivity.
  - reflexivity.
  - reflexivity.
  - cbn. apply not_elem_of_nil.
Defined.


(** ** Arrays with holes *)

Lemma length_array_set {A} (i : nat) (x : A) (a : list (option A)) :
  length (array_set i x a) = Nat.max (length a) (S i).
Proof.
  unfold array_set. destruct (i <? length a)%nat eqn:Hlt.
  - apply Nat.ltb_lt in Hlt. rewrite length_insert. lia.
  - apply Nat.ltb_ge in Hlt. rewrite !length_app, length_replicate. cbn. lia.
Qed.

Lemma array_get_set {A} (i j : nat) (x : A) (a : list (option A)) :
  array_get (array_set i x a) j
  = if decide (i = j) then Some x else array_get a j.
Proof.
  unfold array_get, array_set. destruct (i <? length a)%nat eqn:Hlt.
  - apply Nat.ltb_lt in Hlt. destruct (decide (i = j)) as [<-|Hne].
    + rewrite list_lookup_insert_eq by exact Hlt. reflexivity.
    + rewrite list_lookup_insert_ne by exact Hne. reflexivity.
  - apply Nat.ltb_ge in Hlt. destruct (decide (i = j)) as [<-|Hne].
    + rewrite lookup_app_r by exact Hlt.
      rewrite lookup_app_r by (rewrite length_replicate; lia).
      rewrite length_replicate, Nat.sub_diag. reflexivity.
    + destruct (decide (j < length a)%nat) as [Hj|Hj].
      * rewrite lookup_app_l by exact Hj. reflexivity.
      * rewrite (lookup_ge_None_2 a j) by lia.
        rewrite lookup_app_r by lia.
        destruct (decide (j - length a < i - length a)%nat) as [Hr|Hr].
        -- rewrite lookup_app_l by (rewrite length_replicate; exact Hr).
           rewrite lookup_replicate_2 by exact Hr. reflexivity.
        -- rewrite lookup_app_r by (rewrite length_replicate; lia).
           rewrite length_replicate.
           destruct (j - length a - (i - length a))%nat as [|n] eqn:Hn; [lia|].
           reflexivity.
Qed.

Lemma array_get_Some {A} (a : list (option A)) (j : nat) (x : A) :
  array_get a j = Some x -> a !! j = Some (Some x).
Proof.
  unfold array_get. destruct (a !! j) as [[y|]|]; cbn; congruence.
Qed.

(** ** The cache *)

Lemma peek_unfold now k c :
  Lru.peek now k c
  = match List.find (Lru.has_key k) c with
    | Some e => if Lru.is_stale now e then None else Some (Lru.value e)
    | None => None
    end.
Proof.
  unfold Lru.peek, Lru.get.
  destruct (List.find (Lru.has_key k) c) as [e|]; [|reflexivity].
  destruct (Lru.is_stale now e); reflexivity.
Qed.

Lemma find_remove_ne k k' c :
  k <> k' ->
  List.find (Lru.has_key k) (Lru.remove k' c) = List.find (Lru.has_key k) c.
Proof.
  intros Hne. unfold Lru.remove.
  induction c as [|e c IH]; [reflexivity|].
  rewrite filter_cons. destruct (decide (Lru.has_key k' e = false)) as [Hf|Hf].
  - cbn. rewrite IH. reflexivity.
  - cbn. destruct (Lru.has_key k e) eqn:Hk; [|exact IH].
    apply not_false_is_true in Hf. unfold Lru.has_key in *.
    apply String.eqb_eq in Hk, Hf. congruence.
Qed.

Lemma find_remove_eq k c : List.find (Lru.has_key k) (Lru.remove k c) = None.
Proof.
  unfold Lru.remove. induction c as [|e c IH]; [reflexivity|].
  rewrite filter_cons. destruct (decide (Lru.has_key k e = false)) as [Hf|Hf].
  - cbn. rewrite Hf. exact IH.
  - exact IH.
Qed.

Lemma find_has_key k c e :
  List.find (Lru.has_key k) c = Some e -> Lru.has_key k e = true.
Proof. intros H. apply List.find_some in H as [_ H]. exact H. Qed.

(** A [get] does not change what any later [get] answers. *)
Lemma peek_get now k k' c :
  Lru.peek now k (snd (Lru.get now k' c)) = Lru.peek now k c.
Proof.
  unfold Lru.get at 1.
  destruct (List.find (Lru.has_key k') c) as [e'|] eqn:Hfind; [|reflexivity].
  pose proof (find_has_key _ _ _ Hfind) as Hkey.
  destruct (Lru.is_stale now e') eqn:Hstale; cbn [snd]; rewrite !peek_unfold.
  - destruct (decide (k = k')) as [->|Hne].
    + rewrite find_remove_eq, Hfind, Hstale. reflexivity.
    + rewrite find_remove_ne by exact Hne. reflexivity.
  - cbn [List.find]. destruct (decide (k = k')) as [->|Hne].
    + rewrite Hkey, Hfind. reflexivity.
    + assert (Lru.has_key k e' = false) as ->.
      { unfold Lru.has_key in *. apply String.eqb_eq in Hkey.
        apply String.eqb_neq. congruence. }
      rewrite find_remove_ne by exact Hne. reflexivity.
Qed.

(** A [set] is answered by the next [get] while the entry is fresh. *)
Lemma get_set now now' k v c :
  (now' - now <= Lru.ttl)%Z ->
  fst (Lru.get now' k (Lru.set now k v c)) = Some v.
Proof.
  intros Hfresh. unfold Lru.set, Lru.max.
  change 1000%nat with (S 999). rewrite firstn_cons.
  unfold Lru.get. cbn [List.find].
  unfold Lru.has_key at 1. cbn [Lru.key]. rewrite String.eqb_refl.
  unfold Lru.is_stale. cbn [Lru.start].
  destruct (Lru.ttl <? now' - now)%Z eqn:Hs; [apply Z.ltb_lt in Hs; lia|].
  reflexivity.
Qed.

(** ** The embedding pipeline *)

Lemma pending_ext now model c c' texts i :
  (forall k, Lru.peek now k c' = Lru.peek now k c) ->
  pending now model c' texts i = pending now model c texts i.
Proof.
  intros Hpeek. revert i. induction texts as [|text rest IH]; intros i; [reflexivity|].
  cbn. unfold cached. rewrite Hpeek, IH. reflexivity.
Qed.

Lemma elem_of_pending now model c texts i t j :
  (t, j) ∈ pending now model c texts i <->
  exists j', j = (i + j')%nat /\ texts !! j' = Some t /\ cached now model c t = None.
Proof.
  revert i. induction texts as [|text rest IH]; intros i; cbn.
  - split; [intros H; apply elem_of_nil in H as []|].
    intros (j' & _ & H & _). rewrite lookup_nil in H. discriminate.
  - assert (Hrest : (t, j) ∈ pending now model c rest (S i) ->
              exists j', j = (i + j')%nat /\ (text :: rest) !! j' = Some t
                         /\ cached now model c t = None).
    { intros H. apply IH in H as (j' & -> & Hj & Hc).
      exists (S j'). split; [lia|]. split; [exact Hj|exact Hc]. }
    split.
    + destruct (cached now model c text) eqn:Hc; [exact Hrest|].
      intros H. apply elem_of_cons in H as [[= -> ->]|H]; [|exact (Hrest H)].
      exists 0%nat. split; [lia|]. split; [reflexivity|exact Hc].
    + intros ([|j'] & -> & Hj & Hc); cbn in Hj.
      * injection Hj as ->. rewrite Hc, Nat.add_0_r. apply list_elem_of_here.
      * assert ((t, (i + S j')%nat) ∈ pending now model c rest (S i)) as Hin.
        { apply IH. exists j'. split; [lia|]. split; [exact Hj|exact Hc]. }
        destruct (cached now model c text); [exact Hin|].
        apply list_elem_of_further. exact Hin.
Qed.

Lemma lookup_loop_spec now model texts i c results toEmbed c' results' toEmbed' :
  lookup_loop now model texts i c results toEmbed = (c', results', toEmbed') ->
  (forall k, Lru.peek now k c' = Lru.peek now k c)
  /\ toEmbed' = toEmbed ++ pending now model c texts i
  /\ (length results' <= Nat.max (length results) (i + length texts))%nat
  /\ (forall j t v, texts !! j = Some t -> cached now model c t = Some v ->
        array_get results' (i + j) = Some v)
  /\ (forall j,
        (forall j' t v, texts !! j' = Some t -> cached now model c t = Some v ->
                        j <> (i + j')%nat) ->
        array_get results' j = array_get results j).
Proof.
  revert i c results toEmbed.
  induction texts as [|text rest IH]; intros i c results toEmbed; cbn [lookup_loop].
  - intros [= <- <- <-]. rewrite app_nil_r. cbn.
    repeat split; try reflexivity; [lia|].
    intros j t v H. rewrite lookup_nil in H. discriminate.
  - destruct (Lru.get now (cache_key model text) c) as [o c1] eqn:Hget.
    assert (Ho : cached now model c text = o).
    { unfold cached, Lru.peek. rewrite Hget. reflexivity. }
    assert (Hc1 : forall k, Lru.peek now k c1 = Lru.peek now k c).
    { intros k. rewrite <- (peek_get now k (cache_key model text) c), Hget.
      reflexivity. }
    assert (Hcached : forall t, cached now model c1 t = cached now model c t).
    { intros t. apply Hc1. }
    destruct o as [hit|]; intros H; apply IH in H as (Hpeek & -> & Hlen & Hhit & Hother).
    + split; [intros k; rewrite Hpeek; apply Hc1|].
      split; [cbn [pending]; rewrite Ho, (pending_ext _ _ _ _ _ _ Hc1); reflexivity|].
      split; [rewrite length_array_set in Hlen; cbn [length]; lia|].
      split.
      * intros [|j] t v Hj Hv; cbn in Hj.
        -- injection Hj as <-. rewrite Hother.
           ++ rewrite Nat.add_0_r, array_get_set, decide_True by reflexivity. congruence.
           ++ intros; lia.
        -- rewrite Nat.add_succ_r. apply (Hhit j t v Hj). rewrite Hcached. exact Hv.
      * intros j Hj. rewrite Hother.
        -- rewrite array_get_set, decide_False; [reflexivity|].
           intros ->. apply (Hj 0%nat text hit); [reflexivity|exact Ho|lia].
        -- intros j' t v Ht Hv. rewrite Hcached in Hv.
           specialize (Hj (S j') t v Ht Hv). lia.
    + split; [intros k; rewrite Hpeek; apply Hc1|].
      split; [cbn [pending]; rewrite Ho, (pending_ext _ _ _ _ _ _ Hc1), <- app_assoc;
              reflexivity|].
      split; [cbn [length]; lia|].
      split.
      * intros [|j] t v Hj Hv; cbn in Hj.
        -- injection Hj as <-. congruence.
        -- rewrite Nat.add_succ_r. apply (Hhit j t v Hj). rewrite Hcached. exact Hv.
      * intros j Hj. apply Hother.
        intros j' t v Ht Hv. rewrite Hcached in Hv.
        specialize (Hj (S j') t v Ht Hv). lia.
Qed.

Lemma write_back_spec now model texts items c results c' results' :
  write_back now model texts items c results = (c', results') ->
  (forall j, j ∉ items.*1 -> array_get results' j = array_get results j)
  /\ (forall j w, j ∈ items.*1 -> (forall v, (j, v) ∈ items -> v = w) ->
        array_get results' j = Some w)
  /\ (forall n, (length results <= n)%nat ->
        (forall j, j ∈ items.*1 -> (j < n)%nat) -> (length results' <= n)%nat).
Proof.
  revert c results.
  induction items as [|[index embedding] rest IH]; intros c results; cbn [write_back].
  - intros [= <- <-]. split; [reflexivity|]. split; [|auto].
    intros j w H. cbn in H. apply elem_of_nil in H as [].
  - intros H. apply IH in H as (Hout & Hin & Hlen). cbn [fmap list_fmap fst].
    split; [|split].
    + intros j Hj. apply not_elem_of_cons in Hj as [Hne Hj].
      rewrite (Hout j Hj), array_get_set, decide_False by congruence. reflexivity.
    + intros j w Hj Hw.
      destruct (decide (j ∈ rest.*1)) as [Hrest|Hrest].
      * apply Hin; [exact Hrest|].
        intros v Hv. apply Hw. apply list_elem_of_further. exact Hv.
      * apply elem_of_cons in Hj as [->|Hj]; [|contradiction].
        rewrite (Hout index Hrest), array_get_set, decide_True by reflexivity.
        f_equal. apply Hw. apply list_elem_of_here.
    + intros n Hn Hidx. apply Hlen.
      * rewrite length_array_set.
        pose proof (Hidx index (list_elem_of_here _ _)). lia.
      * intros j Hj. apply Hidx. apply list_elem_of_further. exact Hj.
Qed.

Lemma createBatches_loop_concat {T} (fuel : nat) (items : list T) (batchSize : nat) :
  (0 < batchSize)%nat -> (length items <= fuel)%nat ->
  concat (createBatches_loop fuel items batchSize) = items.
Proof.
  intros Hpos. revert items.
  induction fuel as [|fuel IH]; intros items Hlen.
  - destruct items; [reflexivity|cbn in Hlen; lia].
  - destruct items as [|x items]; [reflexivity|].
    cbn [createBatches_loop concat]. rewrite IH.
    + apply take_drop.
    + rewrite length_drop. cbn [length] in *. lia.
Qed.

Lemma createBatches_concat {T} (items : list T) (batchSize : nat) :
  (0 < batchSize)%nat -> concat (createBatches items batchSize) = items.
Proof. intros Hpos. apply createBatches_loop_concat; [exact Hpos|lia]. Qed.

Lemma batch_embeddings_map (embedding_of : string -> vector) batch :
  batch_embeddings batch (map embedding_of (map fst batch))
  = Some (map (fun item => (snd item, embedding_of (fst item))) batch).
Proof.
  induction batch as [|item batch IH]; [reflexivity|].
  cbn. cbn in IH. rewrite IH. reflexivity.
Qed.

Lemma promise_all_loop_fulfilled {A} (vals : list A) completion values :
  exists values',
    promise_all_loop (map inr vals) completion values = inr values'
    /\ length values' = length values
    /\ (forall b v, b ∈ completion -> vals !! b = Some v -> (b < length values)%nat ->
          values' !! b = Some (Some v))
    /\ (forall b, b ∉ completion -> values' !! b = values !! b).
Proof.
  revert values. induction completion as [|b0 rest IH]; intros values; cbn.
  - exists values. split; [reflexivity|]. split; [reflexivity|]. split; [|reflexivity].
    intros b v H. apply elem_of_nil in H as [].
  - rewrite list_lookup_fmap.
    destruct (vals !! b0) as [v0|] eqn:Hb0; cbn.
    + destruct (IH (<[b0 := Some v0]> values)) as (values' & -> & Hlen & Hin & Hout).
      rewrite length_insert in Hlen, Hin.
      exists values'. split; [reflexivity|]. split; [exact Hlen|]. split.
      * intros b v Hb Hv Hlt.
        destruct (decide (b ∈ rest)) as [Hr|Hr]; [apply Hin; assumption|].
        apply elem_of_cons in Hb as [->|Hb]; [|contradiction].
        rewrite (Hout b0 Hr), list_lookup_insert_eq by exact Hlt. congruence.
      * intros b Hb. apply not_elem_of_cons in Hb as [Hne Hb].
        rewrite (Hout b Hb). apply list_lookup_insert_ne. congruence.
    + destruct (IH values) as (values' & -> & Hlen & Hin & Hout).
      exists values'. split; [reflexivity|]. split; [exact Hlen|]. split.
      * intros b v Hb Hv Hlt.
        apply elem_of_cons in Hb as [->|Hb]; [congruence|].
        apply Hin; assumption.
      * intros b Hb. apply not_elem_of_cons in Hb as [_ Hb]. apply Hout, Hb.
Qed.

Lemma promise_all_fulfilled {A} (vals : list A) completion :
  completion ≡ₚ seq 0 (length vals) ->
  promise_all (map inr vals) completion = inr (map Some vals).
Proof.
  intros Hperm. unfold promise_all. rewrite length_map.
  destruct (promise_all_loop_fulfilled vals completion
              (replicate (length vals) None))
    as (values' & -> & Hlen & Hin & _).
  rewrite length_replicate in Hlen, Hin.
  f_equal. apply list_eq. intros b. rewrite list_lookup_fmap.
  destruct (vals !! b) as [v|] eqn:Hb; cbn.
  - pose proof (lookup_lt_Some _ _ _ Hb) as Hlt.
    apply Hin; [|exact Hb|exact Hlt].
    rewrite Hperm. apply elem_of_seq. lia.
  - apply lookup_ge_None. apply lookup_ge_None in Hb. lia.
Qed.

Lemma flat_fulfilled {A} (vals : list (list A)) : flat (map Some vals) = concat vals.
Proof.
  unfold flat. f_equal. induction vals as [|v vals IH]; [reflexivity|].
  cbn. rewrite IH. reflexivity.
Qed.

Lemma results_by_position (owed_for : string -> vector) (texts : list string)
    (results : list (option vector)) :
  (length results <= length texts)%nat ->
  (forall j t, texts !! j = Some t -> array_get results j = Some (owed_for t)) ->
  results = map (fun t => Some (owed_for t)) texts.
Proof.
  intros Hlen Hslot. apply list_eq. intros j. rewrite list_lookup_fmap.
  destruct (texts !! j) as [t|] eqn:Ht; cbn.
  - apply array_get_Some, Hslot, Ht.
  - apply lookup_ge_None. apply lookup_ge_None in Ht. lia.
Qed.

Section EmbedClaims.

Variable provider : string -> list string -> string + list vector.

Lemma run_batch_contract embedding_of model batch :
  order_preserving provider embedding_of model ->
  run_batch provider model batch
  = inr (map (fun item => (snd item, embedding_of (fst item))) batch).
Proof.
  intros Hp. unfold run_batch. rewrite Hp, batch_embeddings_map. reflexivity.
Qed.

Lemma embed_batched_result embedding_of batchSize now completion svc texts model :
  order_preserving provider embedding_of model ->
  (0 < batchSize)%nat ->
  completion ≡ₚ
    seq 0 (length (createBatches (pending now model (cache svc) texts 0) batchSize)) ->
  exists c results,
    lookup_loop now model texts 0 (cache svc) [] []
    = (c, results, pending now model (cache svc) texts 0)
    /\ fst (embed_batched provider batchSize now completion svc texts model)
       = inr (snd (write_back now model texts
                     (map (fun item => (snd item, embedding_of (fst item)))
                        (pending now model (cache svc) texts 0))
                     c results)).
Proof.
  intros Hp Hpos Hperm. unfold embed_batched.
  destruct (lookup_loop now model texts 0 (cache svc) [] [])
    as [[c results] toEmbed] eqn:Hloop.
  pose proof (lookup_loop_spec _ _ _ _ _ _ _ _ _ _ Hloop) as (_ & HtoEmbed & _).
  cbn [app] in HtoEmbed. subst toEmbed.
  exists c, results. split; [reflexivity|].
  destruct (pending now model (cache svc) texts 0) as [|p l] eqn:HP; [reflexivity|].
  rewrite <- HP in *.
  set (batches := createBatches (pending now model (cache svc) texts 0) batchSize) in *.
  set (g := fun item : string * nat => (snd item, embedding_of (fst item))).
  assert (Hout : map (run_batch provider model) batches
                 = map inr (map (map g) batches)).
  { rewrite map_map. apply map_ext. intros batch.
    apply run_batch_contract, Hp. }
  rewrite Hout, promise_all_fulfilled by (rewrite length_map; exact Hperm).
  rewrite flat_fulfilled, <- concat_map.
  unfold batches. rewrite createBatches_concat by exact Hpos.
  destruct (write_back _ _ _ _ _ _) as [c' results']. reflexivity.
Qed.

(** C4.  When the provider answers every batch with one vector per text,
    in order, [embed] returns one vector per input text, the one at
    position [i] being the vector owed for [texts[i]]: the cached vector
    when the cache has a fresh entry for it, the provider's otherwise.
    This holds for every positive batch size ([embed] itself uses 100) and
    for every order in which the batches complete. *)
Theorem embed_preserves_order embedding_of batchSize now completion svc texts model :
  order_preserving provider embedding_of model ->
  (0 < batchSize)%nat ->
  completion ≡ₚ
    seq 0 (length (createBatches (pending now model (cache svc) texts 0) batchSize)) ->
  fst (embed_batched provider batchSize now completion svc texts model)
  = inr (map (fun t => Some (owed embedding_of now model (cache svc) t)) texts).
Proof.
  intros Hp Hpos Hperm.
  destruct (embed_batched_result embedding_of batchSize now completion svc texts
              model Hp Hpos Hperm) as (c & results & Hloop & ->).
  f_equal.
  apply lookup_loop_spec in Hloop as (_ & _ & Hlen & Hhit & Hother).
  set (P := pending now model (cache svc) texts 0) in *.
  set (g := fun item : string * nat => (snd item, embedding_of (fst item))).
  destruct (write_back now model texts (map g P) c results)
    as [c' results'] eqn:Hwb. cbn [snd].
  apply write_back_spec in Hwb as (Hout & Hin & Hlen').
  assert (Hidx : forall j v, (j, v) ∈ map g P ->
            exists t, texts !! j = Some t
                      /\ cached now model (cache svc) t = None
                      /\ v = embedding_of t).
  { intros j v H. apply list_elem_of_fmap in H as ([t j'] & [= -> ->] & H).
    apply elem_of_pending in H as (j'' & -> & Ht & Hc).
    exists t. auto. }
  apply results_by_position.
  - apply Hlen'; [cbn in Hlen; lia|].
    intros j Hj. apply list_elem_of_fmap in Hj as ([j' v] & -> & Hj).
    apply Hidx in Hj as (t & Ht & _). apply lookup_lt_Some in Ht. exact Ht.
  - intros j t Ht. unfold owed.
    destruct (cached now model (cache svc) t) as [v|] eqn:Hc.
    + rewrite Hout.
      * apply (Hhit j t v Ht Hc).
      * intros Hj. apply list_elem_of_fmap in Hj as ([j' w] & -> & Hj).
        apply Hidx in Hj as (t' & Ht' & Hc' & _). cbn [fst] in Ht. congruence.
    + apply Hin.
      * apply list_elem_of_fmap. exists (j, embedding_of t). split; [reflexivity|].
        apply list_elem_of_fmap. exists (t, j). split; [reflexivity|].
        apply elem_of_pending. exists j. auto.
      * intros v Hv. apply Hidx in Hv as (t' & Ht' & _ & ->). congruence.
Qed.

End EmbedClaims.

Section CacheClaims.

Variable provider : string -> list string -> string + list vector.

(** C5.  The cache has no fresh entry for [hello] under [model-a] and
    the provider answers the one-text request with the vector [v].  Two
    calls of [embed(["hello"], "model-a")] in succession, the second no
    later than the time-to-live after the first, both return [[v]], and
    between them they send one request to the provider. *)
Theorem embed_twice_one_call t1 t2 completion svc v rest :
  cached t1 "model-a" (cache svc) "hello" = None ->
  provider "model-a" ["hello"] = inr (v :: rest) ->
  (t2 - t1 <= Lru.ttl)%Z ->
  exists svc1 svc2,
    embed provider t1 [0%nat] svc ["hello"] "model-a" = (inr [Some v], svc1)
    /\ embed provider t2 completion svc1 ["hello"] "model-a" = (inr [Some v], svc2)
    /\ calls svc2 = calls svc ++ [("model-a", ["hello"])]
    /\ calls_since svc svc2 = [("model-a", ["hello"])].
Proof.
  intros Hmiss Hprovider Hfresh.
  unfold cached, Lru.peek in Hmiss.
  set (key := cache_key "model-a" "hello") in *.
  destruct (Lru.get t1 key (cache svc)) as [o c1] eqn:Hget1.
  cbn [fst] in Hmiss. subst o.
  pose proof (get_set t1 t2 key v c1 Hfresh) as Hhit.
  destruct (Lru.get t2 key (Lru.set t1 key v c1)) as [o c2] eqn:Hget2.
  cbn [fst] in Hhit. subst o.
  exists (Service (Lru.set t1 key v c1) (calls svc ++ [("model-a", ["hello"])])),
         (Service c2 (calls svc ++ [("model-a", ["hello"])])).
  split; [|split; [|split]].
  - unfold embed, embed_batched. cbn [lookup_loop]. fold key. rewrite Hget1.
    cbn [app]. unfold createBatches. cbn [length createBatches_loop map fst].
    change (take 100 [("hello", 0%nat)]) with [("hello", 0%nat)].
    cbn [map fst]. unfold run_batch. cbn [map fst]. rewrite Hprovider.
    cbn [batch_embeddings snd]. unfold promise_all.
    cbn [length replicate promise_all_loop lookup list_lookup].
    cbn [insert list_insert]. unfold flat. cbn [omap list_omap id concat app].
    cbn [write_back lookup list_lookup default]. fold key.
    reflexivity.
  - unfold embed, embed_batched. cbn [lookup_loop cache]. fold key. rewrite Hget2.
    reflexivity.
  - reflexivity.
  - unfold calls_since. cbn [calls]. rewrite drop_app_length. reflexivity.
Qed.

End CacheClaims.

Lemma embed_preserves_order_witness :
  fst (embed_batched Examples.length_provider 2 0 [1%nat; 0%nat] new_service
         ["a"; "bb"; "ccc"] "text-embedding-ada-002")
  = inr (map (fun t => Some (owed (fun t => [Z.of_nat (String.length t)]) 0
                              "text-embedding-ada-002" (cache new_service) t))
           ["a"; "bb"; "ccc"]).
Proof.
  refine (embed_preserves_order Examples.length_provider
            (fun t => [Z.of_nat (String.length t)]) 2 0 [1%nat; 0%nat] new_service
            ["a"; "bb"; "ccc"] "text-embedding-ada-002" _ _ _).
  - intros texts. reflexivity.
  - lia.
  - vm_compute. apply perm_swap.
Defined.

Lemma embed_twice_one_call_witness :
  exists svc1 svc2,
    embed Examples.length_provider 0 [0%nat] new_service ["hello"] "model-a"
      = (inr [Some [5%Z]], svc1)
    /\ embed Examples.length_provider 1000 [] svc1 ["hello"] "model-a"
       = (inr [Some [5%Z]], svc2)
    /\ calls svc2 = calls new_service ++ [("model-a", ["hello"])]
    /\ calls_since new_service svc2 = [("model-a", ["hello"])].
Proof.
  refine (embed_twice_one_call Examples.length_provider 0 1000 [] new_service
            [5%Z] [] _ _ _).
  - reflexivity.
  - reflexivity.
  - vm_compute. discriminate.
Defined.


(** ** Evaluations *)

(** The range filter of the specification's scenario, and what it selects
    among the prices 50, 150 and 250. *)
Example price_range_filter :
  buildFilterConditions
    [("price", JObj [("$gte", JNum 100); ("$lte", JNum 200)])]
  = inr ("JSON_VALUE(metadata, '$.price') >= '100' AND " +:+
         "JSON_VALUE(metadata, '$.price') <= '200'")
  /\ map (fun price =>
            forallb (holds [("price", JNum price)])
              [Compare "price" OpGte "100"; Compare "price" OpLte "200"])
       [50; 150; 250]%Z
     = [false; true; false].
Proof. split; reflexivity. Qed.

Example in_filter :
  buildFilterConditions
    [("brand", JObj [("$in", JArr [JStr "Sony"; JStr "Bose"])]);
     ("rating", JObj [("$gte", JNum 4)])]
  = inr ("JSON_VALUE(metadata, '$.brand') IN ('Sony','Bose') AND " +:+
         "JSON_VALUE(metadata, '$.rating') >= '4'").
Proof. reflexivity. Qed.

Example in_filter_without_list :
  buildFilterConditions [("brand", JObj [("$in", JStr "Sony")])]
  = inl (TypeError "val.map is not a function").
Proof. reflexivity. Qed.

Example empty_filter : buildFilterConditions [] = inr "".
Proof. reflexivity. Qed.

Example dimension_mismatch_message :
  fst (upsert Examples.length_provider 0 [] Examples.collection_a
         Examples.upsert_second_too_long)
  = inl (ValidationError
           "Vector dimension mismatch for document bad. Expected 2, got 3").
Proof. vm_compute. reflexivity. Qed.

Example no_documents :
  fst (upsert Examples.length_provider 0 [] Examples.collection_a (mkUpsert [] None))
  = inl (ValidationError "No documents provided").
Proof. reflexivity. Qed.

(** Three texts, the second one cached, batches of one text completing in
    reverse order. *)
Example embed_mixed_hits_and_misses :
  let svc := Service [Lru.Entry (cache_key "m" "bb") [9%Z] 0] [] in
  match embed_batched Examples.length_provider 1 10 [1%nat; 0%nat] svc
          ["a"; "bb"; "ccc"] "m" with
  | (r, svc') =>
      r = inr [Some [1%Z]; Some [9%Z]; Some [3%Z]]
      /\ calls svc' = [("m", ["a"]); ("m", ["ccc"])]
      /\ map Lru.key (cache svc')
         = [cache_key "m" "ccc"; cache_key "m" "a"; cache_key "m" "bb"]
  end.
Proof. vm_compute. repeat split. Qed.

Example createBatches_of_five :
  createBatches [1; 2; 3; 4; 5]%nat 2 = [[1; 2]; [3; 4]; [5]]%nat.
Proof. reflexivity. Qed.

Example search_without_vector_or_query :
  fst (search Examples.length_provider Examples.zero_distance 0
         Examples.collection_prices (mkQuery None None None None None None))
  = inl (ValidationError "Either vector or query must be provided").
Proof. reflexivity. Qed.

Example search_text_without_service :
  fst (search Examples.length_provider Examples.zero_distance 0
         Examples.collection_prices (mkQuery None (Some "shoes") None None None None))
  = inl (SearchError "Embedding service not configured for text queries").
Proof. reflexivity. Qed.

(** * Further properties of the code *)

Import Statements Operations Clearing Client MoreNotions.

(** ** The predicate text *)

Lemma render_truthy c : truthy_string (render c) = true.
Proof. destruct c; reflexivity. Qed.

Lemma append_truthy a b : truthy_string a = true -> truthy_string (a +:+ b) = true.
Proof. destruct a; [discriminate|reflexivity]. Qed.

Lemma concat_truthy sep x l :
  truthy_string x = true -> truthy_string (String.concat sep (x :: l)) = true.
Proof.
  intros Hx. destruct l as [|y l]; [exact Hx|].
  cbn [String.concat]. apply append_truthy, Hx.
Qed.

(** X1.  The predicate [buildFilterConditions] returns is the empty text
    exactly when the filter produced no condition, so the [if
    (filterConditions)] of [search] and [delete] adds a clause exactly when
    there is a condition. *)
Theorem predicate_empty_iff_no_condition (filter : object) :
  buildFilterConditions filter = inr "" <-> compile filter = inr [].
Proof.
  unfold buildFilterConditions.
  destruct (compile filter) as [e|conditions]; [split; discriminate|].
  split.
  - intros [= H]. destruct conditions as [|c conditions]; [reflexivity|].
    cbn [map] in H.
    pose proof (concat_truthy " AND " (render c) (map render conditions)
                  (render_truthy c)) as Ht.
    rewrite H in Ht. discriminate.
  - intros [= ->]. reflexivity.
Qed.

(** ** createBatches *)

Lemma createBatches_loop_lookup {T} (fuel : nat) (items : list T) (batchSize i : nat) :
  (0 < batchSize)%nat -> (length items <= fuel)%nat ->
  createBatches_loop fuel items batchSize !! i
  = if decide (i * batchSize < length items)%nat
    then Some (take batchSize (drop (i * batchSize) items))
    else None.
Proof.
  intros Hpos. revert items i.
  induction fuel as [|fuel IH]; intros items i Hlen.
  - destruct items; [|cbn in Hlen; lia].
    cbn. rewrite decide_False by (cbn; lia). apply lookup_nil.
  - destruct items as [|x items].
    + cbn. rewrite decide_False by (cbn; lia). apply lookup_nil.
    + cbn [createBatches_loop]. destruct i as [|i].
      * cbn [lookup list_lookup Nat.mul drop]. rewrite decide_True by (cbn; lia).
        reflexivity.
      * cbn [lookup list_lookup]. change (list_lookup i) with (@lookup _ _ (list (list T)) _ i).
        rewrite IH by (rewrite length_drop; cbn [length] in *; lia).
        rewrite length_drop, drop_drop.
        replace (batchSize + i * batchSize)%nat with (S i * batchSize)%nat by lia.
        destruct (decide (i * batchSize < length (x :: items) - batchSize)%nat),
                 (decide (S i * batchSize < length (x :: items))%nat);
          try reflexivity; lia.
Qed.

(** X2.  With a positive batch size, [createBatches] cuts the items into
    consecutive slices: batch [i] is [items.slice(i * batchSize, i * batchSize
    + batchSize)] for every [i] with [i * batchSize < items.length], there
    is no other batch, and the batches put end to end are the items. *)
Theorem createBatches_slices {T} (items : list T) (batchSize : nat) :
  (0 < batchSize)%nat ->
  concat (createBatches items batchSize) = items
  /\ forall i,
       createBatches items batchSize !! i
       = if decide (i * batchSize < length items)%nat
         then Some (take batchSize (drop (i * batchSize) items))
         else None.
Proof.
  intros Hpos. split; [apply createBatches_concat, Hpos|].
  intros i. apply createBatches_loop_lookup; [exact Hpos|lia].
Qed.

Lemma createBatches_slices_witness :
  concat (createBatches [1; 2; 3; 4; 5]%nat 2) = [1; 2; 3; 4; 5]%nat
  /\ forall i,
       createBatches [1; 2; 3; 4; 5]%nat 2 !! i
       = if decide (i * 2 < length [1; 2; 3; 4; 5]%nat)%nat
         then Some (take 2 (drop (i * 2) [1; 2; 3; 4; 5]%nat))
         else None.
Proof. apply (createBatches_slices [1; 2; 3; 4; 5]%nat 2). lia. Defined.

Lemma createBatches_sizes {T} (items : list T) (batchSize : nat) (batch : list T) :
  (0 < batchSize)%nat -> batch ∈ createBatches items batchSize ->
  (1 <= length batch <= batchSize)%nat.
Proof.
  intros Hpos Hin. apply list_elem_of_lookup in Hin as [i Hi].
  unfold createBatches in Hi.
  rewrite createBatches_loop_lookup in Hi by (exact Hpos || lia).
  destruct (decide (i * batchSize < length items)%nat) as [Hlt|]; [|discriminate].
  injection Hi as <-. rewrite length_take, length_drop. lia.
Qed.

(** ** What embed sends to the provider *)

Lemma pending_texts now model c texts i :
  map fst (pending now model c texts i) = List.filter (uncached now model c) texts.
Proof.
  revert i. induction texts as [|text rest IH]; intros i; [reflexivity|].
  cbn [pending List.filter]. unfold uncached at 1.
  destruct (cached now model c text); [apply IH|].
  cbn [map fst]. rewrite IH. reflexivity.
Qed.

Section PipelineProperties.

Variable provider : string -> list string -> string + list vector.

Lemma embed_batched_calls batchSize now completion svc texts model :
  calls (snd (embed_batched provider batchSize now completion svc texts model))
  = calls svc ++ map (fun batch => (model, map fst batch))
                   (createBatches (pending now model (cache svc) texts 0) batchSize).
Proof.
  unfold embed_batched.
  destruct (lookup_loop now model texts 0 (cache svc) [] [])
    as [[c results] toEmbed] eqn:Hloop.
  apply lookup_loop_spec in Hloop as (_ & -> & _). cbn [app].
  destruct (pending now model (cache svc) texts 0) as [|p l].
  - cbn. rewrite app_nil_r. reflexivity.
  - destruct (promise_all _ completion) as [e|embeddings]; [reflexivity|].
    destruct (write_back _ _ _ _ _ _). reflexivity.
Qed.

Lemma embed_calls_since now completion svc texts model :
  calls_since svc (snd (embed provider now completion svc texts model))
  = map (fun batch => (model, map fst batch))
      (createBatches (pending now model (cache svc) texts 0) 100).
Proof.
  unfold calls_since, embed. rewrite embed_batched_calls. apply drop_app_length.
Qed.

(** X3.  Whatever the provider answers, the texts [embed] sends to it, over
    all requests of the call and in the order of the requests, are the input
    texts without a fresh cache entry, in input order and as often as they
    occur; a text with a fresh entry is never sent. *)
Theorem embed_sends_the_uncached_texts now completion svc texts model :
  concat (map snd (calls_since svc
                     (snd (embed provider now completion svc texts model))))
  = List.filter (uncached now model (cache svc)) texts.
Proof.
  rewrite embed_calls_since, map_map. cbn [snd].
  rewrite <- (pending_texts now model (cache svc) texts 0), <- (concat_map fst).
  rewrite createBatches_concat by lia. reflexivity.
Qed.

(** X4.  Every request [embed] sends names the model of the call and
    carries at least one and at most 100 texts. *)
Theorem embed_requests_within_batch_size now completion svc texts model :
  Forall (fun call => fst call = model /\ (1 <= length (snd call) <= 100)%nat)
    (calls_since svc (snd (embed provider now completion svc texts model))).
Proof.
  rewrite embed_calls_since. apply Forall_forall. intros call Hin.
  apply list_elem_of_fmap in Hin as (batch & -> & Hin). cbn [fst snd].
  split; [reflexivity|]. rewrite length_map.
  eapply createBatches_sizes; [|exact Hin]. lia.
Qed.

Lemma promise_all_loop_rejected {A} (outcomes : list (result A)) completion values e :
  promise_all_loop outcomes completion values = inl e ->
  exists b, outcomes !! b = Some (inl e).
Proof.
  revert values. induction completion as [|b rest IH]; intros values; cbn;
    [discriminate|].
  destruct (outcomes !! b) as [[e'|v]|] eqn:Hb; [|apply IH|apply IH].
  intros [= <-]. exists b. exact Hb.
Qed.

Lemma run_batch_rejected model batch e :
  run_batch provider model batch = inl e ->
  exists m, e = EmbeddingError ("Failed to generate embeddings: " +:+ m).
Proof.
  unfold run_batch. destruct (provider model (map fst batch)) as [err|data].
  - intros [= <-]. eauto.
  - destruct (batch_embeddings batch data); [discriminate|].
    intros [= <-]. eauto.
Qed.

(** X5.  When [embed] fails, it fails with an [EmbeddingError] whose
    message starts with [Failed to generate embeddings: ], and nothing has
    been cached: for every key the cache answers as it did before the
    call, also for the batches that did succeed. *)
Theorem embed_failure_caches_nothing now completion svc texts model e :
  fst (embed provider now completion svc texts model) = inl e ->
  (exists m, e = EmbeddingError ("Failed to generate embeddings: " +:+ m))
  /\ forall k,
       Lru.peek now k
         (cache (snd (embed provider now completion svc texts model)))
       = Lru.peek now k (cache svc).
Proof.
  unfold embed, embed_batched.
  destruct (lookup_loop now model texts 0 (cache svc) [] [])
    as [[c results] toEmbed] eqn:Hloop.
  apply lookup_loop_spec in Hloop as (Hpeek & _ & _).
  destruct toEmbed as [|p l]; [discriminate|].
  destruct (promise_all _ completion) as [e'|embeddings] eqn:Hall.
  - cbn [fst snd cache]. intros [= <-]. split; [|exact Hpeek].
    unfold promise_all in Hall.
    apply promise_all_loop_rejected in Hall as [b Hb].
    rewrite list_lookup_fmap in Hb.
    destruct (createBatches (p :: l) 100 !! b) as [batch|]; [|discriminate].
    cbn in Hb. injection Hb as Hb. eapply run_batch_rejected, Hb.
  - destruct (write_back _ _ _ _ _ _). discriminate.
Qed.

(** X6.  Under the provider's contract [embedSingle] returns the vector
    owed for the text (the cached one, else the provider's), and it sends a
    request, for that one text, exactly when the cache has no fresh entry. *)
Theorem embedSingle_owed embedding_of now svc text model :
  order_preserving provider embedding_of model ->
  exists svc',
    embedSingle provider now svc text model
    = (inr (owed embedding_of now model (cache svc) text), svc')
    /\ calls_since svc svc'
       = if uncached now model (cache svc) text then [(model, [text])] else [].
Proof.
  intros Hp. unfold embedSingle, owed, uncached, cached, Lru.peek, calls_since.
  destruct (Lru.get now (cache_key model text) (cache svc)) as [[hit|] c].
  - eexists. split; [reflexivity|]. cbn [fst calls]. apply drop_all.
  - rewrite Hp. cbn [map fst]. eexists. split; [reflexivity|].
    cbn [calls]. apply drop_app_length.
Qed.

(** X7.  A vector computed by [embedSingle] is found by [embed]: after an
    [embedSingle] that missed the cache, an [embed] of the same text under
    the same model, no later than the time-to-live afterwards, returns that
    vector and sends nothing to the provider. *)
Theorem embedSingle_then_embed embedding_of now now' completion svc text model :
  order_preserving provider embedding_of model ->
  uncached now model (cache svc) text = true ->
  (now' - now <= Lru.ttl)%Z ->
  exists svc1 svc2,
    embedSingle provider now svc text model = (inr (embedding_of text), svc1)
    /\ embed provider now' completion svc1 [text] model
       = (inr [Some (embedding_of text)], svc2)
    /\ calls svc2 = calls svc1.
Proof.
  intros Hp Hmiss Hfresh.
  unfold uncached, cached, Lru.peek in Hmiss. unfold embedSingle.
  destruct (Lru.get now (cache_key model text) (cache svc)) as [[hit|] c1];
    [discriminate|].
  rewrite Hp. cbn [map].
  pose proof (get_set now now' (cache_key model text) (embedding_of text) c1 Hfresh)
    as Hhit.
  destruct (Lru.get now' (cache_key model text)
              (Lru.set now (cache_key model text) (embedding_of text) c1))
    as [o c2] eqn:Hget.
  cbn [fst] in Hhit. subst o.
  exists (Service (Lru.set now (cache_key model text) (embedding_of text) c1)
            (calls svc ++ [(model, [text])])),
         (Service c2 (calls svc ++ [(model, [text])])).
  split; [reflexivity|]. split; [|reflexivity].
  unfold embed, embed_batched. cbn [lookup_loop cache calls]. rewrite Hget.
  reflexivity.
Qed.

Lemma length_remove_le k c : (length (Lru.remove k c) <= length c)%nat.
Proof. apply length_filter. Qed.

Lemma length_get_le now k c : (length (snd (Lru.get now k c)) <= length c)%nat.
Proof.
  unfold Lru.get.
  destruct (List.find (Lru.has_key k) c) as [e|] eqn:Hfind; [|cbn; lia].
  assert (Hlt : (S (length (Lru.remove k c)) <= length c)%nat).
  { clear -Hfind. unfold Lru.remove.
    induction c as [|e0 c IH]; [discriminate|].
    cbn [List.find] in Hfind. rewrite filter_cons.
    destruct (Lru.has_key k e0) eqn:Hk.
    - rewrite decide_False by congruence.
      pose proof (length_filter (fun e => Lru.has_key k e = false) c). cbn. lia.
    - rewrite decide_True by reflexivity. cbn. apply IH in Hfind. lia. }
  destruct (Lru.is_stale now e); cbn; lia.
Qed.

Lemma length_set_le now k v c : (length (Lru.set now k v c) <= Lru.max)%nat.
Proof. unfold Lru.set. rewrite length_take. lia. Qed.

Lemma lookup_loop_length now model texts i c results toEmbed c' results' toEmbed' :
  lookup_loop now model texts i c results toEmbed = (c', results', toEmbed') ->
  (length c' <= length c)%nat.
Proof.
  revert i c results toEmbed.
  induction texts as [|text rest IH]; intros i c results toEmbed; cbn [lookup_loop].
  - intros [= <- _ _]. lia.
  - pose proof (length_get_le now (cache_key model text) c) as Hget.
    destruct (Lru.get now (cache_key model text) c) as [[hit|] c1];
      intros H; apply IH in H; cbn [snd] in Hget; lia.
Qed.

Lemma write_back_length now model texts items c results c' results' :
  write_back now model texts items c results = (c', results') ->
  (length c <= Lru.max)%nat -> (length c' <= Lru.max)%nat.
Proof.
  revert c results.
  induction items as [|[index embedding] rest IH]; intros c results; cbn [write_back].
  - intros [= <- _]. auto.
  - intros H _. eapply IH; [exact H|]. apply length_set_le.
Qed.

(** X8.  The cache never outgrows its 1000 entries: if it holds at most
    1000 before an [embed] or an [embedSingle], it holds at most 1000
    afterwards, whether the call succeeds or fails. *)
Theorem cache_stays_within_capacity now completion svc texts text model :
  (length (cache svc) <= 1000)%nat ->
  (length (cache (snd (embed provider now completion svc texts model))) <= 1000)%nat
  /\ (length (cache (snd (embedSingle provider now svc text model))) <= 1000)%nat.
Proof.
  intros Hcap. change 1000%nat with Lru.max in *. split.
  - unfold embed, embed_batched.
    destruct (lookup_loop now model texts 0 (cache svc) [] [])
      as [[c results] toEmbed] eqn:Hloop.
    apply lookup_loop_length in Hloop.
    destruct toEmbed as [|p l]; [cbn; lia|].
    destruct (promise_all _ completion) as [e|embeddings]; [cbn; lia|].
    destruct (write_back now model texts (flat embeddings) c results)
      as [c' results'] eqn:Hwb.
    cbn. eapply write_back_length; [exact Hwb|lia].
  - unfold embedSingle.
    pose proof (length_get_le now (cache_key model text) (cache svc)) as Hget.
    destruct (Lru.get now (cache_key model text) (cache svc)) as [[hit|] c];
      cbn [snd] in Hget; [cbn; lia|].
    destruct (provider model [text]) as [err|[|response data]]; cbn [snd cache];
      try lia.
    apply length_set_le.
Qed.

(** X9.  After [clearCache] nothing is answered from the cache: the next
    [embed] sends every one of its input texts to the provider, in input
    order. *)
Theorem embed_after_clearCache now completion svc texts model :
  concat (map snd (calls_since (clearCache svc)
                     (snd (embed provider now completion (clearCache svc) texts model))))
  = texts.
Proof.
  rewrite embed_calls_since, map_map. cbn [snd].
  rewrite <- (concat_map fst), createBatches_concat by lia.
  rewrite pending_texts. cbn [clearCache cache].
  induction texts as [|text rest IH]; [reflexivity|].
  cbn [List.filter]. unfold uncached at 1. cbn. rewrite IH. reflexivity.
Qed.

End PipelineProperties.

(** ** parseVector reads what upsert writes *)

Lemma numeric_char_plain c :
  numeric_char c = true ->
  is_space c = false /\ Ascii.eqb c "," = false
  /\ Ascii.eqb c "[" = false /\ Ascii.eqb c "]" = false.
Proof.
  destruct c as [[|] [|] [|] [|] [|] [|] [|] [|]]; vm_compute;
    intros H; try discriminate H; repeat split.
Qed.

Lemma all_chars_append test a b :
  all_chars test (a +:+ b) = all_chars test a && all_chars test b.
Proof.
  induction a as [|c a IH]; [reflexivity|].
  simpl. rewrite IH. apply andb_assoc.
Qed.

Lemma numeric_string_of_uint d :
  all_chars numeric_char (NilEmpty.string_of_uint d) = true.
Proof. induction d; cbn; try exact IHd; reflexivity. Qed.

Lemma read_digits_string_of_uint d :
  read_digits (NilEmpty.string_of_uint d) = (d, "").
Proof.
  induction d; cbn [NilEmpty.string_of_uint read_digits]; [reflexivity|..];
    (change (digit_of _) with (Some Decimal.D0) || change (digit_of _) with (Some Decimal.D1)
     || change (digit_of _) with (Some Decimal.D2) || change (digit_of _) with (Some Decimal.D3)
     || change (digit_of _) with (Some Decimal.D4) || change (digit_of _) with (Some Decimal.D5)
     || change (digit_of _) with (Some Decimal.D6) || change (digit_of _) with (Some Decimal.D7)
     || change (digit_of _) with (Some Decimal.D8) || change (digit_of _) with (Some Decimal.D9));
    rewrite IHd; reflexivity.
Qed.

(** The digits of a printed natural number are read back to its value, and
    there is at least one of them. *)
Lemma read_digits_NilZero d :
  exists d', read_digits (NilZero.string_of_uint d) = (d', "")
             /\ d' <> Decimal.Nil /\ Z.of_uint d' = Z.of_uint d
             /\ all_chars numeric_char (NilZero.string_of_uint d) = true
             /\ exists c rest, NilZero.string_of_uint d = String c rest
                               /\ is_Some (digit_of c).
Proof.
  destruct d; [exists (Decimal.D0 Decimal.Nil); repeat split; try discriminate; eauto|..];
    (eexists; split; [apply read_digits_string_of_uint|]; split; [discriminate|];
     split; [reflexivity|]; split; [apply numeric_string_of_uint|];
     cbn; eexists; eexists; split; [reflexivity|]; eexists; reflexivity).
Qed.

Lemma digit_not_sign c :
  is_Some (digit_of c) ->
  is_space c = false /\ Ascii.eqb c "-" = false /\ Ascii.eqb c "+" = false
  /\ Ascii.eqb c "I" = false.
Proof.
  destruct c as [[|] [|] [|] [|] [|] [|] [|] [|]]; vm_compute;
    intros [u H]; try discriminate H; repeat split.
Qed.

Lemma read_number_digits negative s d' :
  read_digits s = (d', "") -> d' <> Decimal.Nil ->
  read_number negative s
  = Parsed (if negative then (- Z.of_uint d')%Z else Z.of_uint d').
Proof.
  unfold read_number. intros -> Hd. destruct d'; [contradiction|..]; reflexivity.
Qed.

Lemma parseFloat_num_to_string z : parseFloat (num_to_string z) = Parsed z.
Proof.
  unfold num_to_string.
  rewrite <- (DecimalZ.of_to z) at 2.
  destruct (Z.to_int z) as [d|d]; cbn [NilZero.string_of_int Z.of_int];
    destruct (read_digits_NilZero d)
      as (d' & Hread & Hnil & Hval & _ & c & rest & Hs & Hdigit);
    pose proof (digit_not_sign c Hdigit) as (Hspace & Hminus & Hplus & HI);
    unfold parseFloat.
  - rewrite Hs. cbn [trim_start]. rewrite Hspace. cbn [read_sign].
    rewrite Hminus, Hplus. cbn [String.prefix].
    destruct (ascii_dec "I" c) as [<-|_]; [discriminate HI|].
    rewrite <- Hs, (read_number_digits false _ d' Hread Hnil), Hval. reflexivity.
  - cbn [trim_start]. change (is_space "-") with false. cbn [read_sign].
    change (Ascii.eqb "-" "-") with true. cbv iota. rewrite Hs. cbn [String.prefix].
    destruct (ascii_dec "I" c) as [<-|_]; [discriminate HI|].
    rewrite <- Hs, (read_number_digits true _ d' Hread Hnil), Hval. reflexivity.
Qed.

Lemma numeric_num_to_string z :
  all_chars numeric_char (num_to_string z) = true.
Proof.
  unfold num_to_string.
  destruct (Z.to_int z) as [d|d]; cbn [NilZero.string_of_int];
    destruct (read_digits_NilZero d) as (_ & _ & _ & _ & Hnum & _).
  - exact Hnum.
  - cbn. exact Hnum.
Qed.

Lemma trim_numeric s : all_chars numeric_char s = true -> trim s = s.
Proof.
  intros Hs. unfold trim.
  assert (Hstart : trim_start s = s).
  { destruct s as [|c s]; [reflexivity|]. cbn in Hs.
    apply andb_true_iff in Hs as [Hc _].
    apply numeric_char_plain in Hc as (Hspace & _).
    cbn [trim_start]. rewrite Hspace. reflexivity. }
  rewrite Hstart. clear Hstart. induction s as [|c s IH]; [reflexivity|].
  cbn in Hs. apply andb_true_iff in Hs as [Hc Hs].
  apply numeric_char_plain in Hc as (Hspace & _).
  cbn [trim_end]. rewrite (IH Hs).
  destruct s; [rewrite Hspace|]; reflexivity.
Qed.

Lemma split_comma_numeric p :
  all_chars numeric_char p = true -> split_comma p = [p].
Proof.
  induction p as [|c p IH]; [reflexivity|].
  cbn [all_chars split_comma append]. intros H. apply andb_true_iff in H as [Hc Hp].
  apply numeric_char_plain in Hc as (_ & -> & _). rewrite (IH Hp). reflexivity.
Qed.

Lemma split_comma_numeric_cons p rest :
  all_chars numeric_char p = true ->
  split_comma (p +:+ String "," rest) = p :: split_comma rest.
Proof.
  induction p as [|c p IH]; [reflexivity|].
  simpl. intros H. apply andb_true_iff in H as [Hc Hp].
  apply numeric_char_plain in Hc as (_ & -> & _). rewrite (IH Hp). reflexivity.
Qed.

Lemma split_comma_concat parts :
  parts <> [] ->
  Forall (fun p => all_chars numeric_char p = true) parts ->
  split_comma (String.concat "," parts) = parts.
Proof.
  intros Hne Hall. induction Hall as [|p parts Hp Hall IH]; [contradiction|].
  destruct parts as [|q parts]; [apply split_comma_numeric, Hp|].
  change (String.concat "," (p :: q :: parts))
    with (p +:+ String "," (String.concat "," (q :: parts))).
  rewrite split_comma_numeric_cons by exact Hp.
  rewrite IH by discriminate. reflexivity.
Qed.

Lemma remove_brackets_concat parts :
  Forall (fun p => all_chars numeric_char p = true) parts ->
  remove_brackets (String.concat "," parts) = String.concat "," parts.
Proof.
  intros Hall.
  assert (Hchars : all_chars (fun c => numeric_char c || Ascii.eqb c ",")
                     (String.concat "," parts) = true).
  { assert (Hone : forall p, all_chars numeric_char p = true ->
                     all_chars (fun c => numeric_char c || Ascii.eqb c ",") p = true).
    { induction p as [|c p IHp]; [reflexivity|]. cbn [all_chars]. intros H.
      apply andb_true_iff in H as [-> H]. cbn [orb andb]. apply IHp, H. }
    induction Hall as [|p parts Hp Hall IH]; [reflexivity|].
    destruct parts as [|q parts]; [apply Hone, Hp|].
    change (String.concat "," (p :: q :: parts))
      with (p +:+ String "," (String.concat "," (q :: parts))).
    rewrite all_chars_append, (Hone p Hp). cbn [all_chars]. rewrite IH. reflexivity. }
  revert Hchars. generalize (String.concat "," parts). clear.
  induction s as [|c s IH]; [reflexivity|].
  cbn [all_chars remove_brackets]. intros H. apply andb_true_iff in H as [Hc Hs].
  rewrite (IH Hs).
  destruct (numeric_char c) eqn:Hn.
  - apply numeric_char_plain in Hn as (_ & _ & -> & ->). reflexivity.
  - cbn [orb] in Hc. apply Ascii.eqb_eq in Hc as ->. reflexivity.
Qed.

Lemma remove_brackets_append a b :
  remove_brackets (a +:+ b) = remove_brackets a +:+ remove_brackets b.
Proof.
  induction a as [|c a IH]; [reflexivity|].
  simpl. rewrite IH.
  destruct (Ascii.eqb c "[" || Ascii.eqb c "]"); reflexivity.
Qed.

Lemma parseVector_literal_nonempty (v : vector) :
  v <> [] -> parseVector (vector_literal v) = map Parsed v.
Proof.
  intros Hv. unfold parseVector, vector_literal.
  assert (Hall : Forall (fun p => all_chars numeric_char p = true)
                   (map num_to_string v)).
  { apply Forall_forall. intros p Hp.
    apply list_elem_of_fmap in Hp as (z & -> & _). apply numeric_num_to_string. }
  assert (Hnil : forall s, s +:+ "" = s).
  { induction s as [|c s IH]; [reflexivity|].
    change (String c s +:+ "") with (String c (s +:+ "")). rewrite IH. reflexivity. }
  change ("[" +:+ String.concat "," (map num_to_string v) +:+ "]")
    with (String "[" (String.concat "," (map num_to_string v) +:+ "]")).
  cbn [truthy_string].
  change (remove_brackets (String "[" ?s)) with (remove_brackets s).
  rewrite remove_brackets_append, remove_brackets_concat by exact Hall.
  change (remove_brackets "]") with "". rewrite Hnil.
  rewrite split_comma_concat; [|destruct v; [contradiction|discriminate]|exact Hall].
  rewrite map_map. apply map_ext_in. intros z _.
  rewrite trim_numeric by apply numeric_num_to_string.
  apply parseFloat_num_to_string.
Qed.

(** X10.  [parseVector] reads back what [upsert] writes, except for the
    empty vector: parsing the text [[v1,...,vn]] that is bound to the
    embedding column gives the components [v1 ... vn] as numbers when there
    is at least one, and the one-element list [[NaN]] for the text [[]]. *)
Theorem parseVector_vector_literal (v : vector) :
  parseVector (vector_literal v)
  = match v with
    | [] => [NaN]
    | _ :: _ => map Parsed v
    end.
Proof.
  destruct v as [|z v]; [reflexivity|].
  apply parseVector_literal_nonempty. discriminate.
Qed.

(** The empty vector is not read back, and neither are texts that do not
    hold integers. *)
Example parseVector_edges :
  parseVector (vector_literal []) = [NaN]
  /\ parseVector "" = []
  /\ parseVector "[1, 2 ,x]" = [Parsed 1; Parsed 2; NaN]
  /\ parseVector "[1.5E+000,7]" = [Beyond; Parsed 7].
Proof. repeat split. Qed.

(** ** Tables keyed by id *)

Lemma elem_of_rows (t : gmap string Row) (r : Row) :
  r ∈ rows t <-> exists k, t !! k = Some r.
Proof.
  unfold rows. rewrite list_elem_of_fmap. split.
  - intros ([k r'] & -> & H). exists k. apply elem_of_map_to_list in H. exact H.
  - intros [k H]. exists (k, r). split; [reflexivity|].
    apply elem_of_map_to_list. exact H.
Qed.

Lemma elem_of_rows_keyed (t : gmap string Row) (r : Row) :
  keyed t -> r ∈ rows t <-> t !! ID r = Some r.
Proof.
  intros Hk. rewrite elem_of_rows. split.
  - intros [k H]. rewrite (Hk k r H). exact H.
  - intros H. eauto.
Qed.

Lemma rows_ids (t : gmap string Row) :
  keyed t -> map ID (rows t) = (map_to_list t).*1.
Proof.
  intros Hk. unfold rows.
  assert (H : forall kr, kr ∈ map_to_list t -> ID (snd kr) = fst kr).
  { intros [k r] Hin. apply elem_of_map_to_list in Hin. apply (Hk k r Hin). }
  induction (map_to_list t) as [|kr l IH]; [reflexivity|].
  cbn. rewrite (H kr) by apply list_elem_of_here. f_equal.
  apply IH. intros kr' Hin. apply H. apply list_elem_of_further. exact Hin.
Qed.

Lemma NoDup_row_ids (t : gmap string Row) : keyed t -> NoDup (map ID (rows t)).
Proof. intros Hk. rewrite (rows_ids t Hk). apply NoDup_fst_map_to_list. Qed.

Lemma filter_nil_iff {A} (P : A -> bool) (l : list A) :
  (forall x, x ∈ l -> P x = false) -> List.filter P l = [].
Proof.
  induction l as [|x l IH]; intros H; [reflexivity|].
  cbn. rewrite (H x) by apply list_elem_of_here.
  apply IH. intros y Hy. apply H. apply list_elem_of_further. exact Hy.
Qed.

Lemma filter_single {A} (f : A -> string) (P : A -> bool) (l : list A) (a : A) :
  NoDup (map f l) -> a ∈ l -> P a = true ->
  (forall x, x ∈ l -> P x = true -> f x = f a) ->
  List.filter P l = [a].
Proof.
  induction l as [|x l IH]; intros Hnd Hin Ha Honly.
  - apply elem_of_nil in Hin as [].
  - cbn in Hnd. apply NoDup_cons in Hnd as [Hx Hnd].
    apply elem_of_cons in Hin as [<-|Hin].
    + cbn. rewrite Ha. f_equal. apply filter_nil_iff.
      intros y Hy. destruct (P y) eqn:Hy'; [|reflexivity].
      exfalso. apply Hx. rewrite <- (Honly y) by
        (try apply list_elem_of_further; assumption).
      apply list_elem_of_fmap. eauto.
    + cbn. destruct (P x) eqn:Hpx.
      * exfalso. apply Hx. rewrite (Honly x) by
          (try apply list_elem_of_here; assumption).
        apply list_elem_of_fmap. eauto.
      * apply IH; try assumption.
        intros y Hy. apply Honly. apply list_elem_of_further. exact Hy.
Qed.

Lemma equals_bound_iff column bound :
  equals_bound column bound = true <-> column = bound /\ bound <> "".
Proof.
  unfold equals_bound. rewrite andb_true_iff, String.eqb_eq.
  destruct bound; cbn; split; intros [H1 H2]; split; congruence.
Qed.

Lemma in_namespace_with_id_iff namespace ids r :
  in_namespace_with_id namespace ids r = true
  <-> NAMESPACE r = namespace /\ ID r ∈ ids /\ ID r <> "".
Proof.
  unfold in_namespace_with_id.
  rewrite andb_true_iff, String.eqb_eq, existsb_exists.
  split.
  - intros [Hns (id & Hin & Heq)]. apply equals_bound_iff in Heq as [-> Hne].
    split; [exact Hns|]. split; [apply list_elem_of_In, Hin|exact Hne].
  - intros (Hns & Hin & Hne). split; [exact Hns|].
    exists (ID r). split; [apply list_elem_of_In, Hin|].
    apply equals_bound_iff. auto.
Qed.

Lemma keyed_merge (t : gmap string Row) (binds : list Row) :
  keyed t -> keyed (executeMany_merge t binds).
Proof.
  revert t. induction binds as [|b binds IH]; intros t Hk; [exact Hk|].
  cbn. apply IH. intros k r. unfold merge.
  destruct (decide (ID b = k)) as [<-|Hne].
  - rewrite lookup_insert_eq. intros [= <-]. reflexivity.
  - rewrite lookup_insert_ne by exact Hne. apply Hk.
Qed.

Lemma keyed_update_where (t : gmap string Row) id namespace a :
  keyed t -> keyed (update_where t id namespace a).
Proof.
  intros Hk k r. unfold update_where. rewrite lookup_fmap.
  destruct (t !! k) as [r0|] eqn:Hr0; [|discriminate].
  cbn. intros [= <-]. specialize (Hk k r0 Hr0).
  destruct (equals_bound (ID r0) id && String.eqb (NAMESPACE r0) namespace);
    exact Hk.
Qed.

Lemma lookup_delete_where (t : gmap string Row) condition k :
  delete_where t condition !! k
  = match t !! k with
    | Some r => if condition r then None else Some r
    | None => None
    end.
Proof.
  unfold delete_where. destruct (t !! k) as [r|] eqn:Hr.
  - destruct (condition r) eqn:Hc.
    + apply map_lookup_filter_None. right. intros r' Hr'. cbn.
      rewrite Hr in Hr'. injection Hr' as <-. congruence.
    + apply map_lookup_filter_Some. split; [exact Hr|exact Hc].
  - apply map_lookup_filter_None. left. exact Hr.
Qed.

Lemma keyed_delete_where (t : gmap string Row) condition :
  keyed t -> keyed (delete_where t condition).
Proof.
  intros Hk k r. rewrite lookup_delete_where.
  destruct (t !! k) as [r0|] eqn:Hr0; [|discriminate].
  destruct (condition r0); [discriminate|]. intros [= <-]. apply (Hk k r0 Hr0).
Qed.

(** ** fetch *)

(** X11.  On a table keyed by id, [fetch] returns exactly the documents of
    the rows that are in the namespace of the request and whose id is one of
    the requested, non-empty ids; each is returned once, however often its id
    is listed, and ids without such a row are skipped without an error. *)
Theorem fetch_returns_the_requested_rows c request docs :
  keyed (table c) ->
  fetch c request = inr docs ->
  NoDup (map fd_id docs)
  /\ forall d,
       d ∈ docs <->
       exists r, table c !! fd_id d = Some r
                 /\ d = to_document r
                 /\ NAMESPACE r = string_or (f_namespace request) "default"
                 /\ fd_id d ∈ f_ids request
                 /\ fd_id d <> "".
Proof.
  intros Hk. unfold fetch, select_by_ids.
  destruct (f_ids request) as [|id ids] eqn:Hids; [discriminate|].
  intros [= <-]. rewrite <- Hids. clear Hids id ids.
  set (ns := string_or (f_namespace request) "default").
  split.
  - rewrite map_map. change (fun x => fd_id (to_document x)) with ID.
    pose proof (NoDup_row_ids (table c) Hk) as Hnd. revert Hnd.
    induction (rows (table c)) as [|r l IH]; [intros; constructor|].
    cbn. intros Hnd. apply NoDup_cons in Hnd as [Hr Hnd].
    destruct (in_namespace_with_id ns (f_ids request) r); [|apply IH, Hnd].
    cbn. apply NoDup_cons. split; [|apply IH, Hnd].
    intros Hin. apply Hr. apply list_elem_of_fmap in Hin as (r' & -> & Hin).
    apply list_elem_of_In, filter_In in Hin as [Hin _].
    apply list_elem_of_fmap. exists r'. split; [reflexivity|].
    apply list_elem_of_In, Hin.
  - intros d. rewrite list_elem_of_fmap. split.
    + intros (r & -> & Hin). apply list_elem_of_In, filter_In in Hin as [Hin Hsel].
      apply list_elem_of_In, (elem_of_rows_keyed _ _ Hk) in Hin.
      apply in_namespace_with_id_iff in Hsel as (Hns & Hid & Hne).
      exists r. auto.
    + intros (r & Hr & -> & Hns & Hid & Hne). exists r. split; [reflexivity|].
      cbn [to_document fd_id] in *.
      assert (HID : ID r = fd_id (to_document r)) by reflexivity.
      pose proof (Hk _ _ Hr) as Hkey. cbn [to_document fd_id] in Hkey.
      apply list_elem_of_In, filter_In. split.
      * apply list_elem_of_In, elem_of_rows. eauto.
      * apply in_namespace_with_id_iff. auto.
Qed.

(** ** upsert, then fetch *)

Lemma filter_rows_one (t : gmap string Row) (k namespace : string) (r : Row) :
  keyed t -> t !! k = Some r -> k <> "" -> NAMESPACE r = namespace ->
  List.filter (in_namespace_with_id namespace [k]) (rows t) = [r].
Proof.
  intros Hk Hr Hne Hns. pose proof (Hk k r Hr) as Hid.
  apply (filter_single ID).
  - apply NoDup_row_ids, Hk.
  - apply elem_of_rows. eauto.
  - apply in_namespace_with_id_iff. rewrite Hid.
    split; [exact Hns|]. split; [apply list_elem_of_here|exact Hne].
  - intros x _ Hx. apply in_namespace_with_id_iff in Hx as (_ & Hin & _).
    apply list_elem_of_singleton in Hin. congruence.
Qed.

Lemma collect_binds_fit c namespace embeddings documents i binds out :
  collect_binds c namespace embeddings documents i binds = inr out ->
  exists new,
    out = binds ++ new
    /\ Forall2 (fun doc b =>
                  exists v, b = make_bind namespace doc v
                            /\ Z.of_nat (length v) = dimension (config c)
                            /\ (forall w, doc_vector doc = Some w -> v = w))
         documents new.
Proof.
  revert i binds.
  induction documents as [|doc documents IH]; intros i binds; cbn.
  - intros [= <-]. exists []. rewrite app_nil_r. split; [reflexivity|constructor].
  - destruct (resolve_vector doc embeddings i) as [vec|] eqn:Hv; [|discriminate].
    destruct (Z.of_nat (length vec) =? dimension (config c))%Z eqn:Hfit;
      [|discriminate].
    intros H. apply IH in H as (new & -> & HF).
    exists (make_bind namespace doc vec :: new).
    rewrite <- app_assoc. split; [reflexivity|].
    constructor; [|exact HF].
    exists vec. split; [reflexivity|]. split; [apply Z.eqb_eq, Hfit|].
    intros w Hw. unfold resolve_vector in Hv. rewrite Hw in Hv. congruence.
Qed.

Section UpsertFetch.

Variable provider : string -> list string -> string + list vector.

Lemma upsert_ok_fit now completion c request c' :
  upsert provider now completion c request = (inr tt, c') ->
  exists c1 new,
    table c1 = table c
    /\ Forall2 (fun doc b =>
                  exists v, b = make_bind (string_or (u_namespace request) "default") doc v
                            /\ Z.of_nat (length v) = dimension (config c)
                            /\ (forall w, doc_vector doc = Some w -> v = w))
         (u_documents request) new
    /\ c' = with_table c1 (executeMany_merge (table c1) new).
Proof.
  unfold upsert.
  destruct (u_documents request) as [|doc documents] eqn:Hdocs; [discriminate|].
  destruct (generate_embeddings provider now completion c (doc :: documents))
    as [[e|embeddings] c1] eqn:Hg; [discriminate|].
  apply generate_embeddings_table in Hg as (Ht & Hc & _ & _).
  destruct (collect_binds c1 _ embeddings (doc :: documents) 0 [])
    as [e|binds] eqn:Hb; [discriminate|].
  apply collect_binds_fit in Hb as (new & -> & HF). rewrite Hc in HF.
  intros [= <-]. exists c1, new. auto.
Qed.

(** X12.  Upsert, then fetch: on a table keyed by id, after a successful
    upsert a document of the batch that carries an explicit, non-empty
    vector and a non-empty id (the last of the batch with that id) is
    fetched from the namespace of the upsert as exactly one document, with
    that id, its text (or null), its metadata (or the empty object) and the
    components of its vector. *)
Theorem upsert_then_fetch now completion c request c' pre doc post v :
  keyed (table c) ->
  upsert provider now completion c request = (inr tt, c') ->
  u_documents request = pre ++ doc :: post ->
  doc_id doc ∉ map doc_id post ->
  doc_vector doc = Some v ->
  v <> [] ->
  doc_id doc <> "" ->
  fetch c' (mkFetch [doc_id doc] (u_namespace request))
  = inr [mkFetched (doc_id doc) (stored_text doc) (default [] (doc_metadata doc))
           (map Parsed v)].
Proof.
  intros Hk H Hdocs Hpost Hv Hne Hid.
  apply upsert_ok in H as (c1 & new & Ht & _ & HF & ->).
  rewrite Hdocs in HF.
  apply Forall2_app_inv_l in HF as (new1 & new2 & HF1 & HF2 & ->).
  apply Forall2_cons_inv_l in HF2 as (b & new3 & (w & -> & Hw) & HF3 & ->).
  rewrite (Hw v Hv).
  set (ns := string_or (u_namespace request) "default").
  assert (Hrow : executeMany_merge (table c1) (new1 ++ make_bind ns doc v :: new3)
                 !! doc_id doc = Some (make_bind ns doc v)).
  { apply (executeMany_merge_last new1 new3 (make_bind ns doc v)).
    rewrite (bind_for_ids _ _ _ HF3). exact Hpost. }
  unfold fetch, select_by_ids. cbn [f_ids f_namespace with_table table].
  fold ns.
  rewrite (filter_rows_one _ (doc_id doc) ns (make_bind ns doc v));
    [|apply keyed_merge; rewrite Ht; exact Hk|exact Hrow|exact Hid|reflexivity].
  unfold to_document, make_bind. cbn [map ID TEXT METADATA EMBEDDING].
  rewrite (parseVector_literal_nonempty v Hne). reflexivity.
Qed.

(** X13.  Namespace isolation: on a table keyed by id, after a successful
    upsert, fetching ids of the upserted documents from any other namespace
    returns no document. *)
Theorem upsert_invisible_in_other_namespaces now completion c request c' fetched :
  keyed (table c) ->
  upsert provider now completion c request = (inr tt, c') ->
  f_ids fetched <> [] ->
  (forall id, id ∈ f_ids fetched -> id ∈ map doc_id (u_documents request)) ->
  string_or (f_namespace fetched) "default"
    <> string_or (u_namespace request) "default" ->
  fetch c' fetched = inr [].
Proof.
  intros Hk H Hids Hsub Hns.
  apply upsert_ok in H as (c1 & new & Ht & _ & HF & ->).
  pose proof (bind_for_ids _ _ _ HF) as Hnew.
  unfold fetch, select_by_ids.
  destruct (f_ids fetched) as [|id ids] eqn:Hf; [contradiction|].
  rewrite <- Hf. cbn [with_table table].
  rewrite filter_nil_iff; [reflexivity|].
  intros r Hr.
  destruct (in_namespace_with_id _ (f_ids fetched) r) eqn:Hsel; [|reflexivity].
  exfalso. apply in_namespace_with_id_iff in Hsel as (Hrns & Hin & _).
  apply elem_of_rows_keyed in Hr; [|apply keyed_merge; rewrite Ht; exact Hk].
  assert (Hmem : ID r ∈ map ID new).
  { rewrite Hnew. apply Hsub. rewrite <- Hf. exact Hin. }
  destruct (executeMany_merge_member new (table c1) _ Hmem) as (b & Hb & _ & Hlook).
  rewrite Hlook in Hr. injection Hr as ->.
  apply list_elem_of_lookup in Hb as [j Hj].
  destruct (Forall2_lookup_r _ _ _ _ _ HF Hj) as (d & _ & v & -> & _).
  cbn [make_bind NAMESPACE] in Hrns. congruence.
Qed.

(** X14.  A successful upsert has checked every vector it wrote: each
    explicit vector of the batch has the configured dimension, and each
    document of the batch has a row whose embedding is the text of a vector
    of the configured dimension. *)
Theorem upsert_writes_the_configured_dimension now completion c request c' :
  upsert provider now completion c request = (inr tt, c') ->
  (forall doc v, doc ∈ u_documents request -> doc_vector doc = Some v ->
     Z.of_nat (length v) = dimension (config c))
  /\ (forall doc, doc ∈ u_documents request ->
        exists r v, table c' !! doc_id doc = Some r
                    /\ EMBEDDING r = vector_literal v
                    /\ Z.of_nat (length v) = dimension (config c)).
Proof.
  intros H. apply upsert_ok_fit in H as (c1 & new & Ht & HF & ->).
  split.
  - intros doc v Hdoc Hv. apply list_elem_of_lookup in Hdoc as [j Hj].
    destruct (Forall2_lookup_l _ _ _ _ _ HF Hj) as (b & _ & w & _ & Hfit & Hw).
    rewrite <- (Hw v Hv). exact Hfit.
  - intros doc Hdoc.
    assert (Hids : map ID new = map doc_id (u_documents request)).
    { clear -HF. induction HF as [|d b ds bs (v & -> & _) _ IH]; [reflexivity|].
      cbn. rewrite IH. reflexivity. }
    assert (Hk : doc_id doc ∈ map ID new).
    { rewrite Hids. apply list_elem_of_fmap. eauto. }
    destruct (executeMany_merge_member new (table c1) _ Hk) as (b & Hb & _ & Hlook).
    apply list_elem_of_lookup in Hb as [j Hj].
    destruct (Forall2_lookup_r _ _ _ _ _ HF Hj) as (d & _ & v & -> & Hfit & _).
    exists (make_bind (string_or (u_namespace request) "default") d v), v.
    split; [exact Hlook|]. split; [reflexivity|exact Hfit].
Qed.

End UpsertFetch.

(** ** upsert with automatic embedding *)

Lemma collect_binds_checked c namespace embeddings documents i binds out :
  collect_binds c namespace embeddings documents i binds = inr out ->
  forall j doc, documents !! j = Some doc ->
    exists v, resolve_vector doc embeddings (i + j) = Some v
              /\ Z.of_nat (length v) = dimension (config c).
Proof.
  revert i binds.
  induction documents as [|d documents IH]; intros i binds H j doc Hj;
    [rewrite lookup_nil in Hj; discriminate|].
  cbn [collect_binds] in H.
  destruct (resolve_vector d embeddings i) as [vec|] eqn:Hv; [|discriminate].
  destruct (Z.of_nat (length vec) =? dimension (config c))%Z eqn:Hfit;
    [|discriminate].
  destruct j as [|j].
  - injection Hj as <-. rewrite Nat.add_0_r. exists vec.
    split; [exact Hv|apply Z.eqb_eq, Hfit].
  - rewrite Nat.add_succ_r. apply (IH (S i) _ H j doc Hj).
Qed.

Lemma collect_binds_resolved c namespace embeddings documents i binds
    (f : Document -> vector) :
  (forall j doc, documents !! j = Some doc ->
     resolve_vector doc embeddings (i + j) = Some (f doc)
     /\ Z.of_nat (length (f doc)) = dimension (config c)) ->
  collect_binds c namespace embeddings documents i binds
  = inr (binds ++ map (fun doc => make_bind namespace doc (f doc)) documents).
Proof.
  revert i binds.
  induction documents as [|doc documents IH]; intros i binds H; cbn.
  - rewrite app_nil_r. reflexivity.
  - destruct (H 0%nat doc eq_refl) as [Hres Hfit]. rewrite Nat.add_0_r in Hres.
    rewrite Hres. apply Z.eqb_eq in Hfit. rewrite Hfit.
    rewrite IH.
    + rewrite <- app_assoc. reflexivity.
    + intros j d Hj. specialize (H (S j) d Hj).
      rewrite Nat.add_succ_r in H. exact H.
Qed.

Section AutomaticEmbedding.

Variable provider : string -> list string -> string + list vector.

Lemma embed_owed embedding_of now completion svc texts model :
  order_preserving provider embedding_of model ->
  completion ≡ₚ
    seq 0 (length (createBatches (pending now model (cache svc) texts 0) 100)) ->
  exists svc',
    embed provider now completion svc texts model
    = (inr (map (fun t => Some (owed embedding_of now model (cache svc) t)) texts),
       svc').
Proof.
  intros Hp Hperm.
  assert (Hpos : (0 < 100)%nat) by lia.
  destruct (embed_batched_result provider embedding_of 100 now completion svc texts
              model Hp Hpos Hperm) as (c & results & Hloop & Hres).
  fold (embed provider) in Hres.
  destruct (embed provider now completion svc texts model) as [r svc'].
  exists svc'. f_equal. cbn [fst] in Hres. subst r. f_equal.
  apply lookup_loop_spec in Hloop as (_ & _ & Hlen & Hhit & _).
  set (items := map (fun item : string * nat => (snd item, embedding_of (fst item)))
                  (pending now model (cache svc) texts 0)).
  destruct (write_back now model texts items c results) as [c' results'] eqn:Hwb.
  cbn [snd]. apply write_back_spec in Hwb as (Hout & Hin & Hlen').
  assert (Hitem : forall j v, (j, v) ∈ items ->
            exists t, texts !! j = Some t
                      /\ cached now model (cache svc) t = None
                      /\ v = embedding_of t).
  { intros j v H. apply list_elem_of_fmap in H as ([t j'] & Heq & H).
    cbn in Heq. injection Heq as -> ->.
    apply elem_of_pending in H as (j'' & -> & Ht & Hc). exists t. auto. }
  apply results_by_position.
  - apply Hlen'; [cbn in Hlen; lia|].
    intros j Hj. apply list_elem_of_fmap in Hj as ([j' v] & Heq & Hj).
    cbn in Heq. subst j. apply Hitem in Hj as (t & Ht & _).
    apply lookup_lt_Some in Ht. exact Ht.
  - intros j t Ht. unfold owed.
    destruct (cached now model (cache svc) t) as [v|] eqn:Hc.
    + rewrite Hout; [apply (Hhit j t v Ht Hc)|].
      intros Hj. apply list_elem_of_fmap in Hj as ([j' w] & Heq & Hj).
      cbn in Heq. subst j. apply Hitem in Hj as (t' & Ht' & Hc' & _). congruence.
    + apply Hin.
      * apply list_elem_of_fmap. exists (j, embedding_of t). split; [reflexivity|].
        apply list_elem_of_fmap. exists (t, j). split; [reflexivity|].
        apply elem_of_pending. exists j. auto.
      * intros v Hv. apply Hitem in Hv as (t' & Ht' & _ & ->). congruence.
Qed.

(** X15.  Automatic embedding: with the embedding service set up and a
    provider that keeps its contract, a successful upsert has stored for a
    document with a non-empty id (the last of the batch with that id) its
    explicit vector when it has one, and otherwise the vector owed for
    [doc.text], or for the JSON text of its metadata when it has no text. *)
Theorem upsert_stores_the_embedding_of_the_text
    embedding_of now completion c request svc model c' pre doc post :
  embedding_setup c = Some (svc, model) ->
  order_preserving provider embedding_of model ->
  completion ≡ₚ
    seq 0 (length (createBatches
                     (pending now model (cache svc)
                        (map text_to_embed (u_documents request)) 0) 100)) ->
  upsert provider now completion c request = (inr tt, c') ->
  u_documents request = pre ++ doc :: post ->
  doc_id doc ∉ map doc_id post ->
  doc_id doc <> "" ->
  table c' !! doc_id doc
  = Some (make_bind (string_or (u_namespace request) "default") doc
            (resolved embedding_of now model svc doc)).
Proof.
  intros Hsetup Hp Hperm H Hdocs Hpost _.
  destruct (embed_owed embedding_of now completion svc
              (map text_to_embed (u_documents request)) model Hp Hperm)
    as (svc' & Hembed).
  set (ns := string_or (u_namespace request) "default").
  set (f := resolved embedding_of now model svc).
  set (embeddings := map (fun t => Some (owed embedding_of now model (cache svc) t))
                       (map text_to_embed (u_documents request))) in *.
  assert (Hbinds : forall binds,
            collect_binds (with_service c svc') ns embeddings
              (u_documents request) 0 [] = inr binds ->
            binds = map (fun d => make_bind ns d (f d)) (u_documents request)).
  { intros binds Hb.
    pose proof (collect_binds_checked _ _ _ _ _ _ _ Hb) as Hchecked.
    rewrite (collect_binds_resolved _ ns embeddings _ 0 [] f) in Hb;
      [injection Hb as <-; reflexivity|].
    intros j d Hj.
    assert (Hres : resolve_vector d embeddings (0 + j) = Some (f d)).
    { unfold resolve_vector, f, resolved.
      destruct (doc_vector d) as [v|]; [reflexivity|].
      unfold array_get, embeddings. cbn [Nat.add default].
      rewrite !list_lookup_fmap, Hj. reflexivity. }
    split; [exact Hres|].
    destruct (Hchecked j d Hj) as (v & Hv & Hlen).
    rewrite Hres in Hv. injection Hv as <-. exact Hlen. }
  unfold upsert, generate_embeddings in H. fold ns in H.
  destruct (u_documents request) as [|d ds] eqn:Hd; [discriminate|].
  rewrite Hsetup, Hembed in H.
  destruct (collect_binds (with_service c svc') ns embeddings (d :: ds) 0 [])
    as [e|binds] eqn:Hb; [discriminate|].
  injection H as <-. rewrite (Hbinds binds eq_refl).
  cbn [with_table with_service table].
  rewrite Hdocs, map_app. cbn [map].
  apply (executeMany_merge_last _ _ (make_bind ns doc (f doc))).
  rewrite map_map. exact Hpost.
Qed.

End AutomaticEmbedding.

(** ** update *)

Lemma with_table_same c : with_table c (table c) = c.
Proof. destruct c. reflexivity. Qed.

Lemma lookup_update_where (t : gmap string Row) id namespace a k :
  update_where t id namespace a !! k
  = (fun r => if equals_bound (ID r) id && String.eqb (NAMESPACE r) namespace
              then assign a r else r) <$> t !! k.
Proof. unfold update_where. apply lookup_fmap. Qed.

Lemma run_update_text c request embedding text :
  update_text request = Some text ->
  run_update c request embedding
  = (inr tt,
     with_table c
       (update_where (table c) (up_id request)
          (string_or (up_namespace request) "default")
          (mkAssignment (up_metadata request) (Some text) embedding))).
Proof.
  intros Htext. unfold run_update. rewrite Htext.
  destruct (up_metadata request); reflexivity.
Qed.

Lemma update_where_addressed (t : gmap string Row) id namespace a before :
  t !! id = Some before -> ID before = id -> id <> "" ->
  NAMESPACE before = namespace ->
  update_where t id namespace a !! id = Some (assign a before).
Proof.
  intros Hrow Hid Hne Hns. rewrite lookup_update_where, Hrow.
  cbn [fmap option_fmap option_map].
  assert (Hsel : equals_bound (ID before) id
                 && String.eqb (NAMESPACE before) namespace = true).
  { apply andb_true_iff. split; [apply equals_bound_iff; auto|].
    apply String.eqb_eq, Hns. }
  rewrite Hsel. reflexivity.
Qed.

Section UpdateProperties.

Variable provider : string -> list string -> string + list vector.

Lemma update_outcome now c request r c' :
  update provider now c request = (r, c') ->
  table c' = table c
  \/ exists embedding,
       table c' = update_where (table c) (up_id request)
                    (string_or (up_namespace request) "default")
                    (mkAssignment (up_metadata request) (update_text request) embedding).
Proof.
  assert (Hrun : forall c0 embedding r0 c0',
            run_update c0 request embedding = (r0, c0') ->
            table c0' = table c0
            \/ table c0' = update_where (table c0) (up_id request)
                             (string_or (up_namespace request) "default")
                             (mkAssignment (up_metadata request) (update_text request)
                                embedding)).
  { intros c0 embedding r0 c0'. unfold run_update.
    destruct (up_metadata request), (update_text request);
      intros [= _ <-]; auto. }
  unfold update.
  destruct (update_text request) as [text|] eqn:Htext.
  - destruct (embedding_setup c) as [[svc model]|].
    + destruct (embedSingle provider now svc text model) as [[e|v] svc'].
      * intros [= _ <-]. left. reflexivity.
      * intros H. apply Hrun in H as [H|H];
          cbn [with_service table] in H; eauto.
    + intros H. apply Hrun in H as [H|H]; eauto.
  - intros H. apply Hrun in H as [H|H]; eauto.
Qed.

(** X16.  Whatever its outcome, [update] neither creates nor removes a
    document, never changes the id or the namespace of one, and leaves every
    row untouched that does not have both the id and the namespace of the
    request; in particular a document with that id in another namespace is
    not updated. *)
Theorem update_touches_only_the_addressed_row now c request r c' :
  update provider now c request = (r, c') ->
  forall k,
    match table c !! k, table c' !! k with
    | Some before, Some after =>
        ID after = ID before
        /\ NAMESPACE after = NAMESPACE before
        /\ (ID before <> up_id request
            \/ NAMESPACE before <> string_or (up_namespace request) "default" ->
            after = before)
    | None, None => True
    | _, _ => False
    end.
Proof.
  intros H k. apply update_outcome in H as [->|[embedding ->]].
  - destruct (table c !! k); auto.
  - rewrite lookup_update_where. destruct (table c !! k) as [before|]; cbn; [|exact I].
    destruct (equals_bound (ID before) (up_id request)
              && String.eqb (NAMESPACE before)
                   (string_or (up_namespace request) "default")) eqn:Hsel.
    + split; [reflexivity|]. split; [reflexivity|].
      apply andb_true_iff in Hsel as [Hid Hns].
      apply equals_bound_iff in Hid as [Hid _]. apply String.eqb_eq in Hns.
      intros [Hne|Hne]; contradiction.
    + auto.
Qed.

(** X17.  An update that supplies no metadata and no text, or only the
    empty text, raises the [ValidationError] [No updates provided]; the
    collection is as before and nothing is sent to the provider. *)
Theorem update_without_changes_is_rejected now c request :
  up_metadata request = None ->
  up_text request = None \/ up_text request = Some "" ->
  update provider now c request
  = (inl (ValidationError "No updates provided"), c).
Proof.
  intros Hm Ht. unfold update, run_update, update_text.
  destruct Ht as [-> | ->]; cbn [truthy_string]; rewrite Hm; reflexivity.
Qed.

(** X18.  Without an embedding service (or without a configured model) an
    update of the text of an existing document succeeds, replaces the text,
    and the metadata when given, and keeps the embedding that was computed
    for the old text. *)
Theorem update_text_without_service_keeps_the_vector now c request text before :
  embedding_setup c = None ->
  update_text request = Some text ->
  table c !! up_id request = Some before ->
  ID before = up_id request ->
  up_id request <> "" ->
  NAMESPACE before = string_or (up_namespace request) "default" ->
  exists c',
    update provider now c request = (inr tt, c')
    /\ embeddingService c' = embeddingService c
    /\ table c' !! up_id request
       = Some (mkRow (ID before) (EMBEDDING before) (Some text)
                 (default (METADATA before) (up_metadata request))
                 (NAMESPACE before)).
Proof.
  intros Hsetup Htext Hrow Hid Hne Hns.
  unfold update. rewrite Htext, Hsetup, (run_update_text c request None text Htext).
  eexists. split; [reflexivity|]. split; [reflexivity|].
  cbn [with_table table].
  rewrite (update_where_addressed _ _ _ _ before Hrow Hid Hne Hns).
  reflexivity.
Qed.

(** X19.  With the embedding service set up and a provider that keeps its
    contract, a successful update of the text of an existing document has
    stored the vector owed for the new text together with the text (and the
    metadata when given); id and namespace are as before. *)
Theorem update_text_stores_the_new_embedding
    embedding_of now c request svc model text before c' :
  embedding_setup c = Some (svc, model) ->
  order_preserving provider embedding_of model ->
  update_text request = Some text ->
  table c !! up_id request = Some before ->
  ID before = up_id request ->
  up_id request <> "" ->
  NAMESPACE before = string_or (up_namespace request) "default" ->
  update provider now c request = (inr tt, c') ->
  table c' !! up_id request
  = Some (mkRow (ID before)
            (vector_literal (owed embedding_of now model (cache svc) text))
            (Some text)
            (default (METADATA before) (up_metadata request))
            (NAMESPACE before)).
Proof.
  intros Hsetup Hp Htext Hrow Hid Hne Hns H.
  unfold update in H. rewrite Htext, Hsetup in H.
  assert (He : exists svc',
             embedSingle provider now svc text model
             = (inr (owed embedding_of now model (cache svc) text), svc')).
  { unfold embedSingle, owed, cached, Lru.peek.
    destruct (Lru.get now (cache_key model text) (cache svc)) as [[hit|] c0].
    - eexists. reflexivity.
    - rewrite Hp. cbn [map fst]. eexists. reflexivity. }
  destruct He as (svc' & He). rewrite He in H.
  rewrite (run_update_text _ request _ text Htext) in H.
  injection H as <-.
  cbn [with_table with_service table].
  rewrite (update_where_addressed _ _ _ _ before Hrow Hid Hne Hns).
  reflexivity.
Qed.

End UpdateProperties.

(** ** delete *)

Lemma delete_where_twice (t : gmap string Row) (p q : Row -> bool) :
  delete_where (delete_where t p) q = delete_where t (fun r => p r || q r).
Proof.
  apply map_eq. intros k. rewrite !lookup_delete_where.
  destruct (t !! k) as [r|]; [|reflexivity].
  destruct (p r); [reflexivity|]. reflexivity.
Qed.

Lemma delete_where_nothing (t : gmap string Row) :
  delete_where t (fun _ => false) = t.
Proof.
  apply map_eq. intros k. rewrite lookup_delete_where.
  destruct (t !! k); reflexivity.
Qed.

Lemma delete_ids_where (t : gmap string Row) namespace ids :
  exists condition,
    delete_ids t namespace ids = delete_where t condition
    /\ forall r, condition r = true ->
         NAMESPACE r = namespace
         /\ exists l, ids = Some l /\ ID r ∈ l /\ ID r <> "".
Proof.
  destruct ids as [[|id more]|].
  - exists (fun _ => false). split; [symmetry; apply delete_where_nothing|discriminate].
  - exists (in_namespace_with_id namespace (id :: more)). split; [reflexivity|].
    intros r Hr. apply in_namespace_with_id_iff in Hr as (Hns & Hin & Hne). eauto.
  - exists (fun _ => false). split; [symmetry; apply delete_where_nothing|discriminate].
Qed.

Lemma delete_outcome c request r c' :
  delete c request = (r, c') ->
  embeddingService c' = embeddingService c
  /\ exists condition,
       table c' = delete_where (table c) condition
       /\ forall row, condition row = true ->
            NAMESPACE row = string_or (d_namespace request) "default".
Proof.
  unfold delete. set (ns := string_or (d_namespace request) "default").
  destruct (default false (d_deleteAll request)).
  - intros [= _ <-]. split; [reflexivity|].
    exists (fun row => String.eqb (NAMESPACE row) ns). split; [reflexivity|].
    intros row. apply String.eqb_eq.
  - destruct (delete_ids_where (table c) ns (d_ids request)) as (p & -> & Hp).
    assert (Hids : exists condition,
               delete_where (table c) p = delete_where (table c) condition
               /\ forall row, condition row = true -> NAMESPACE row = ns).
    { exists p. split; [reflexivity|]. intros row H. apply Hp, H. }
    destruct (d_filter request) as [filter|];
      [|intros [= _ <-]; split; [reflexivity|exact Hids]].
    destruct (compile filter) as [e|conditions];
      [intros [= _ <-]; split; [reflexivity|exact Hids]|].
    destruct (truthy_string _);
      [|intros [= _ <-]; split; [reflexivity|exact Hids]].
    destruct (malformed conditions);
      [intros [= _ <-]; split; [reflexivity|exact Hids]|].
    intros [= _ <-]. split; [reflexivity|].
    exists (fun row => p row || selected ns conditions row).
    split; [apply delete_where_twice|].
    intros row H. apply orb_true_iff in H as [H|H]; [apply Hp, H|].
    unfold selected in H. apply andb_true_iff in H as [H _].
    apply String.eqb_eq, H.
Qed.

(** X20.  When no key and no literal of the filter has a single quote,
    then whatever its outcome [delete] adds no row and changes none, it
    leaves the embedding service alone, and every document outside the
    namespace of the request survives it. *)
Theorem delete_stays_in_its_namespace c request r c' :
  closed_filter (d_filter request) = true ->
  delete c request = (r, c') ->
  embeddingService c' = embeddingService c
  /\ (forall k row, table c' !! k = Some row -> table c !! k = Some row)
  /\ (forall k row, table c !! k = Some row ->
        NAMESPACE row <> string_or (d_namespace request) "default" ->
        table c' !! k = Some row).
Proof.
  intros _ H. apply delete_outcome in H as (Hsvc & condition & -> & Hns).
  split; [exact Hsvc|]. split.
  - intros k row. rewrite lookup_delete_where.
    destruct (table c !! k) as [r0|]; [|discriminate].
    destruct (condition r0); [discriminate|]. auto.
  - intros k row Hrow Hother. rewrite lookup_delete_where, Hrow.
    destruct (condition row) eqn:Hc; [|reflexivity].
    exfalso. apply Hother, Hns, Hc.
Qed.

(** X21.  With [deleteAll] set, [delete] succeeds and leaves no document in
    the namespace of the request; the ids and the filter of the request play
    no part. *)
Theorem delete_all_empties_the_namespace c request :
  d_deleteAll request = Some true ->
  exists c',
    delete c request = (inr tt, c')
    /\ rows_in (string_or (d_namespace request) "default") (table c') = []
    /\ delete c (mkDelete None None (Some true) (d_namespace request))
       = (inr tt, c').
Proof.
  intros Hall. unfold delete. rewrite Hall. cbn [default d_deleteAll d_namespace].
  eexists. split; [reflexivity|]. split; [|reflexivity].
  cbn [with_table table]. unfold rows_in. apply filter_nil_iff.
  intros row Hrow. apply elem_of_rows in Hrow as [k Hk].
  rewrite lookup_delete_where in Hk.
  destruct (table c !! k) as [r0|]; [|discriminate].
  destruct (String.eqb (NAMESPACE r0) _) eqn:Hns; [discriminate|].
  injection Hk as <-. exact Hns.
Qed.

Lemma operator_conditions_unsupported key ops conditions :
  Forall (fun e => supported (fst e) = false) ops ->
  operator_conditions key ops conditions = inr conditions.
Proof.
  induction 1 as [|[op val] ops Hop _ IH]; [reflexivity|].
  cbn [operator_conditions]. unfold supported in Hop. cbn [fst] in Hop.
  destruct (cmp_op_of op); [discriminate|]. rewrite Hop. exact IH.
Qed.

Lemma compile_unsupported filter :
  Forall (fun kv => is_object (snd kv) = true
                    /\ Forall (fun e => supported (fst e) = false) (entries (snd kv)))
    filter ->
  compile filter = inr [].
Proof.
  intros H. unfold compile. generalize (@nil Condition).
  induction H as [|[key value] filter [Hobj Hops] _ IH]; intros conditions;
    [reflexivity|].
  cbn [filter_conditions]. cbn [snd] in Hobj, Hops. rewrite Hobj.
  rewrite (operator_conditions_unsupported key _ conditions Hops). apply IH.
Qed.

(** X22.  A filter that is empty, or whose keys carry nothing but operators
    outside the seven, deletes nothing: without ids and without [deleteAll],
    [delete] succeeds and the collection is as before. *)
Theorem delete_by_unsupported_filter_deletes_nothing c request filter :
  default false (d_deleteAll request) = false ->
  d_ids request = None \/ d_ids request = Some [] ->
  d_filter request = Some filter ->
  Forall (fun kv => is_object (snd kv) = true
                    /\ Forall (fun e => supported (fst e) = false) (entries (snd kv)))
    filter ->
  delete c request = (inr tt, c).
Proof.
  intros Hall Hids Hfilter Hunsupported.
  unfold delete. rewrite Hall, Hfilter, (compile_unsupported filter Hunsupported).
  cbn [map String.concat truthy_string].
  destruct Hids as [-> | ->]; cbn [delete_ids]; rewrite with_table_same; reflexivity.
Qed.

(** X23.  [delete] is not atomic: when the request names ids and a filter
    whose compilation throws, the error is raised after the id part has run,
    so the documents of the namespace with the named ids are gone although
    the call failed. *)
Theorem delete_removes_ids_before_the_filter_fails c request ids filter e :
  keyed (table c) ->
  default false (d_deleteAll request) = false ->
  d_ids request = Some ids ->
  d_filter request = Some filter ->
  compile filter = inl e ->
  exists c',
    delete c request = (inl e, c')
    /\ forall id row,
         id ∈ ids -> id <> "" -> table c !! id = Some row ->
         NAMESPACE row = string_or (d_namespace request) "default" ->
         table c' !! id = None.
Proof.
  intros Hk Hall Hids Hfilter Hcompile.
  unfold delete. rewrite Hall, Hids, Hfilter, Hcompile.
  eexists. split; [reflexivity|].
  intros id row Hin Hne Hrow Hns. cbn [with_table table].
  destruct ids as [|id0 more]; [apply elem_of_nil in Hin as []|].
  cbn [delete_ids]. rewrite lookup_delete_where, Hrow.
  assert (Hsel : in_namespace_with_id
                   (string_or (d_namespace request) "default") (id0 :: more) row = true).
  { apply in_namespace_with_id_iff. rewrite (Hk id row Hrow). auto. }
  rewrite Hsel. reflexivity.
Qed.

(** X24.  Delete by ids, then fetch: after [delete] with a non-empty id
    list and no filter, fetching those ids from the same namespace returns
    no document, while on a table keyed by id every document that is not
    named, or is in another namespace, is still there. *)
Theorem delete_ids_then_fetch c request ids :
  keyed (table c) ->
  default false (d_deleteAll request) = false ->
  d_ids request = Some ids ->
  ids <> [] ->
  d_filter request = None ->
  exists c',
    delete c request = (inr tt, c')
    /\ fetch c' (mkFetch ids (d_namespace request)) = inr []
    /\ forall k row,
         table c !! k = Some row ->
         k ∉ ids \/ NAMESPACE row <> string_or (d_namespace request) "default" ->
         table c' !! k = Some row.
Proof.
  intros Hk Hall Hids Hne Hfilter.
  unfold delete. rewrite Hall, Hids, Hfilter.
  destruct ids as [|id more]; [contradiction|].
  set (ns := string_or (d_namespace request) "default").
  exists (with_table c (delete_where (table c) (in_namespace_with_id ns (id :: more)))).
  split; [reflexivity|]. cbn [with_table table]. split.
  - unfold fetch, select_by_ids. cbn [f_ids f_namespace with_table table]. fold ns.
    rewrite filter_nil_iff; [reflexivity|].
    intros row Hrow. apply elem_of_rows in Hrow as [k Hrow].
    rewrite lookup_delete_where in Hrow.
    destruct (table c !! k) as [r0|]; [|discriminate].
    destruct (in_namespace_with_id ns (id :: more) r0) eqn:Hsel; [discriminate|].
    injection Hrow as <-. exact Hsel.
  - intros k row Hrow Hkeep. rewrite lookup_delete_where, Hrow.
    destruct (in_namespace_with_id ns (id :: more) row) eqn:Hsel; [|reflexivity].
    exfalso. apply in_namespace_with_id_iff in Hsel as (Hns & Hin & _).
    rewrite (Hk k row Hrow) in Hin. destruct Hkeep; contradiction.
Qed.

(** ** stats *)

Lemma count_namespaces_lookup (l : list Row) (namespace : string) :
  count_namespaces l !! namespace
  = match length (List.filter (fun r => String.eqb (NAMESPACE r) namespace) l) with
    | O => None
    | S n => Some (S n)
    end.
Proof.
  induction l as [|r l IH]; [reflexivity|].
  cbn [count_namespaces foldr List.filter]. fold (count_namespaces l).
  destruct (String.eqb (NAMESPACE r) namespace) eqn:Hns.
  - apply String.eqb_eq in Hns. subst namespace.
    rewrite lookup_insert_eq, IH. cbn [length].
    destruct (length _); reflexivity.
  - apply String.eqb_neq in Hns. rewrite lookup_insert_ne by exact Hns. exact IH.
Qed.

Lemma sum_counts_insert (m : gmap string nat) (k : string) :
  sum_list_with snd (map_to_list (<[k := S (default 0%nat (m !! k))]> m))
  = S (sum_list_with snd (map_to_list m)).
Proof.
  destruct (m !! k) as [n|] eqn:Hk; cbn [default].
  - rewrite <- (insert_delete_eq m).
    rewrite <- (insert_delete_id m k n Hk) at 2.
    rewrite !map_to_list_insert by apply lookup_delete_eq. reflexivity.
  - rewrite map_to_list_insert by exact Hk. reflexivity.
Qed.

Lemma sum_count_namespaces (l : list Row) :
  sum_list_with snd (map_to_list (count_namespaces l)) = length l.
Proof.
  induction l as [|r l IH];
    [unfold count_namespaces; cbn [foldr]; rewrite map_to_list_empty; reflexivity|].
  unfold count_namespaces. cbn [foldr length]. fold (count_namespaces l).
  rewrite sum_counts_insert, IH. reflexivity.
Qed.

Lemma tally_from (groups : list (string * nat)) (m0 : gmap string nat) (n0 : nat) :
  foldl (fun acc row =>
           (set_property (fst acc) (property_key (fst row)) (snd row),
            (snd acc + snd row)%nat))
    (m0, n0) groups
  = (foldl (fun m row => set_property m (property_key (fst row)) (snd row)) m0 groups,
     (n0 + sum_list_with snd groups)%nat).
Proof.
  revert m0 n0. induction groups as [|row groups IH]; intros m0 n0; cbn.
  - rewrite Nat.add_0_r. reflexivity.
  - rewrite IH. cbn. f_equal. lia.
Qed.

Lemma foldl_set_property_lookup (groups : list (string * nat))
    (m0 : gmap string nat) k :
  NoDup groups.*1 ->
  forallb (fun row => truthy_string (fst row)) groups = true ->
  foldl (fun m row => set_property m (property_key (fst row)) (snd row)) m0 groups
    !! k
  = if String.eqb k "__proto__" then m0 !! k
    else match (list_to_map groups : gmap string nat) !! k with
         | Some n => Some n
         | None => m0 !! k
         end.
Proof.
  revert m0. induction groups as [|[k0 n0] groups IH]; intros m0 Hnd Hkeys.
  - cbn. destruct (String.eqb k "__proto__"); reflexivity.
  - cbn in Hnd. apply NoDup_cons in Hnd as [Hk0 Hnd].
    cbn [forallb fst] in Hkeys. apply andb_true_iff in Hkeys as [Hkey Hkeys].
    cbn [foldl fst snd]. rewrite (IH _ Hnd Hkeys).
    unfold property_key. rewrite Hkey. unfold set_property.
    destruct (String.eqb k "__proto__") eqn:Hk.
    + apply String.eqb_eq in Hk. subst k.
      destruct (String.eqb k0 "__proto__") eqn:Hp; [reflexivity|].
      apply String.eqb_neq in Hp. rewrite lookup_insert_ne by exact Hp. reflexivity.
    + cbn [list_to_map foldr]. destruct (decide (k0 = k)) as [<-|Hne].
      * rewrite Hk, (proj1 (not_elem_of_list_to_map groups k0) Hk0).
        rewrite !lookup_insert_eq. reflexivity.
      * rewrite (lookup_insert_ne (list_to_map groups)) by exact Hne.
        destruct (String.eqb k0 "__proto__"); [reflexivity|].
        rewrite lookup_insert_ne by exact Hne. reflexivity.
Qed.

Lemma group_keys (l : list Row) :
  forallb (fun row => truthy_string (NAMESPACE row)) l = true ->
  forallb (fun row : string * nat => truthy_string (fst row))
    (map_to_list (count_namespaces l)) = true.
Proof.
  intros Hl. apply forallb_forall. intros [k n] Hin.
  apply list_elem_of_In, elem_of_map_to_list in Hin.
  rewrite count_namespaces_lookup in Hin. cbn [fst].
  destruct (List.filter _ l) as [|row rest] eqn:Hf; [discriminate|].
  assert (Hrow : In row (List.filter (fun r => String.eqb (NAMESPACE r) k) l))
    by (rewrite Hf; left; reflexivity).
  apply filter_In in Hrow as [Hrow Hns]. apply String.eqb_eq in Hns. subst k.
  apply (proj1 (forallb_forall _ _) Hl row Hrow).
Qed.

(** X25.  On a table whose rows all have a namespace (as [upsert] writes
    them), [stats] reports as [documentCount] and [totalDocuments] the
    number of rows; its [namespaces] maps each namespace that has documents
    to their number and has no entry for any other, except that the
    namespace [__proto__] never gets an entry, its documents being counted
    in the totals only; its [dimension] is the configured one. *)
Theorem stats_counts_the_rows c :
  forallb (fun row => truthy_string (NAMESPACE row)) (rows (table c)) = true ->
  exists st,
    stats c = inr st
    /\ documentCount st = length (rows (table c))
    /\ totalDocuments st = length (rows (table c))
    /\ (forall namespace,
          namespaces st !! namespace
          = if String.eqb namespace "__proto__" then None
            else match length (rows_in namespace (table c)) with
                 | O => None
                 | S n => Some (S n)
                 end)
    /\ stats_dimension st = dimension (config c).
Proof.
  intros Hrows. unfold stats, tally, group_by_namespace. rewrite tally_from.
  eexists. split; [reflexivity|]. cbn [documentCount totalDocuments namespaces
                                       stats_dimension].
  rewrite sum_count_namespaces. repeat split.
  intros namespace.
  rewrite foldl_set_property_lookup;
    [|apply NoDup_fst_map_to_list|apply group_keys, Hrows].
  rewrite list_to_map_to_list, lookup_empty, count_namespaces_lookup.
  unfold rows_in. destruct (String.eqb namespace "__proto__"); [reflexivity|].
  destruct (length _); reflexivity.
Qed.

(** ** search *)

Lemma elem_of_insert_by_score x a l :
  x ∈ insert_by_score a l <-> x = a \/ x ∈ l.
Proof.
  induction l as [|y l IH]; cbn.
  - rewrite list_elem_of_singleton, elem_of_nil. tauto.
  - destruct (Qle_bool (fst a) (fst y)).
    + rewrite !elem_of_cons. tauto.
    + rewrite !elem_of_cons, IH. tauto.
Qed.

Lemma elem_of_order_by_score x l : x ∈ order_by_score l <-> x ∈ l.
Proof.
  induction l as [|a l IH]; [reflexivity|].
  cbn [order_by_score foldr]. fold (order_by_score l).
  rewrite elem_of_insert_by_score, elem_of_cons, IH. reflexivity.
Qed.

Lemma score_rows_rows vector_distance metric queryVector l scored x :
  score_rows vector_distance metric queryVector l = inr scored ->
  x ∈ scored -> snd x ∈ l.
Proof.
  revert scored. induction l as [|r l IH]; intros scored; cbn.
  - intros [= <-] H. apply elem_of_nil in H as [].
  - destruct (vector_distance (EMBEDDING r) queryVector metric) as [e|d];
      [discriminate|].
    destruct (score_rows vector_distance metric queryVector l) as [e|rest];
      [discriminate|].
    intros [= <-] H. apply elem_of_cons in H as [->|H].
    + apply list_elem_of_here.
    + apply list_elem_of_further. eapply IH; [reflexivity|exact H].
Qed.

Section SearchMore.

Variable provider : string -> list string -> string + list vector.
Variable vector_distance : string -> string -> string -> string + Q.

Lemma search_with_sound c request v resp :
  search_with vector_distance c request v = inr resp ->
  r_namespace resp = string_or (q_namespace request) "default"
  /\ exists conditions,
       request_conditions request = inr conditions
       /\ forall m, m ∈ matches resp ->
            exists row,
              row ∈ rows (table c)
              /\ m_id m = ID row
              /\ NAMESPACE row = string_or (q_namespace request) "default"
              /\ forallb (holds (METADATA row)) conditions = true.
Proof.
  unfold search_with, select_nearest. cbn [search_binds b_namespace b_topK b_queryVector].
  destruct (request_conditions request) as [e|conditions]; [discriminate|].
  destruct (malformed conditions); [discriminate|].
  destruct (score_rows _ _ _ _) as [e|scored] eqn:Hscore; [discriminate|].
  intros [= <-]. cbn [r_namespace matches]. split; [reflexivity|].
  exists conditions. split; [reflexivity|].
  intros m Hm. apply list_elem_of_fmap in Hm as (x & -> & Hx).
  apply subseteq_take in Hx. apply (proj1 (elem_of_order_by_score _ _)) in Hx.
  pose proof (score_rows_rows _ _ _ _ _ _ Hscore Hx) as Hrow.
  apply list_elem_of_In, filter_In in Hrow as [Hrow Hsel].
  unfold selected in Hsel. apply andb_true_iff in Hsel as [Hns Hconds].
  exists (snd x). split; [apply list_elem_of_In, Hrow|].
  split; [reflexivity|]. split; [apply String.eqb_eq, Hns|exact Hconds].
Qed.

(** X26.  Namespace isolation of [search]: when the filter compiles to
    plain conditions (each on one field of the metadata named by letters
    and digits, no literal with a single quote), every match of a
    successful search is a row of the table that is in the namespace of the
    request (the default namespace when none is given) and satisfies every
    condition compiled from the filter; the response names that
    namespace. *)
Theorem search_matches_are_in_the_namespace now c request resp c' :
  plain_filter (q_filter request) = true ->
  search provider vector_distance now c request = (inr resp, c') ->
  r_namespace resp = string_or (q_namespace request) "default"
  /\ exists conditions,
       request_conditions request = inr conditions
       /\ forall m, m ∈ matches resp ->
            exists row,
              row ∈ rows (table c)
              /\ m_id m = ID row
              /\ NAMESPACE row = string_or (q_namespace request) "default"
              /\ forallb (holds (METADATA row)) conditions = true.
Proof.
  intros _. unfold search.
  destruct (q_vector request) as [v|].
  { intros [= H _]. apply (search_with_sound c request v resp H). }
  destruct (q_query request) as [query|]; [|discriminate].
  destruct (truthy_string query); [|discriminate].
  destruct (embedding_setup c) as [[svc model]|]; [|discriminate].
  destruct (embedSingle provider now svc query model) as [[e|v] svc'];
    [discriminate|].
  intros [= H _]. apply (search_with_sound (with_service c svc') request v resp H).
Qed.

(** X27.  A text query is the vector query for its embedding: with the
    embedding service set up and a provider that keeps its contract, a
    search by a non-empty query text has the outcome of the same search by
    the vector owed for that text. *)
Theorem search_by_text_is_search_by_its_vector
    embedding_of now c request svc model query :
  q_vector request = None ->
  q_query request = Some query ->
  truthy_string query = true ->
  embedding_setup c = Some (svc, model) ->
  order_preserving provider embedding_of model ->
  fst (search provider vector_distance now c request)
  = fst (search provider vector_distance now c
           (with_vector request (owed embedding_of now model (cache svc) query))).
Proof.
  intros Hv Hq Htruthy Hsetup Hp.
  unfold search at 2. cbn [with_vector q_vector fst].
  unfold search. rewrite Hv, Hq, Htruthy, Hsetup.
  assert (He : exists svc',
             embedSingle provider now svc query model
             = (inr (owed embedding_of now model (cache svc) query), svc')).
  { unfold embedSingle, owed, cached, Lru.peek.
    destruct (Lru.get now (cache_key model query) (cache svc)) as [[hit|] c0].
    - eexists. reflexivity.
    - rewrite Hp. cbn [map fst]. eexists. reflexivity. }
  destruct He as (svc' & ->). reflexivity.
Qed.

End SearchMore.

(** ** A collection that is opened, not created *)

(** X28.  [getCollection] gives a collection it has not created the
    dimension 1536, the metric cosine and the model text-embedding-ada-002,
    whatever columns the table has; an upsert into such a collection
    succeeds only if every explicit vector of the batch has 1536
    components. *)
Theorem opened_collection_expects_1536
    provider now completion name apiKey columns t request c' :
  getCollectionConfig columns
    = mkConfig 1536 (Some cosine) (Some "text-embedding-ada-002")
  /\ (upsert provider now completion
        (new_Collection name apiKey (getCollectionConfig columns) t) request
      = (inr tt, c') ->
      forall doc v, doc ∈ u_documents request -> doc_vector doc = Some v ->
                    length v = 1536%nat).
Proof.
  assert (Hconfig : getCollectionConfig columns
                    = mkConfig 1536 (Some cosine) (Some "text-embedding-ada-002")).
  { unfold getCollectionConfig, described_dimension, extractDimension.
    destruct (List.find _ columns); reflexivity. }
  split; [exact Hconfig|].
  intros H doc v Hdoc Hv.
  apply upsert_ok_fit in H as (c1 & new & _ & HF & _).
  apply list_elem_of_lookup in Hdoc as [j Hj].
  destruct (Forall2_lookup_l _ _ _ _ _ HF Hj) as (b & _ & w & _ & Hfit & Hw).
  rewrite <- (Hw v Hv). cbn [new_Collection config] in Hfit.
  rewrite Hconfig in Hfit. cbn [dimension] in Hfit. lia.
Qed.

(** ** Instances *)

Lemma keyed_empty : keyed ∅.
Proof. intros k r H. rewrite lookup_empty in H. discriminate. Qed.

Lemma keyed_insert (t : gmap string Row) (r : Row) :
  keyed t -> keyed (<[ID r := r]> t).
Proof. intros Hk. apply (keyed_merge t [r] Hk). Qed.

Lemma keyed_collection_a : keyed (table Examples.collection_a).
Proof. apply (keyed_insert ∅ Examples.row_x_in_a keyed_empty). Qed.

Lemma keyed_collection_ab : keyed (table collection_ab).
Proof. apply (keyed_insert _ row_y_in_b), keyed_collection_a. Qed.

Lemma keyed_collection_prices : keyed (table Examples.collection_prices).
Proof. apply (keyed_insert ∅ Examples.row_p9 keyed_empty). Qed.

Lemma length_provider_order_preserving model :
  order_preserving Examples.length_provider length_embedding model.
Proof. intros texts. reflexivity. Qed.

Lemma embed_failure_caches_nothing_witness :
  (exists m,
     EmbeddingError "Failed to generate embeddings: Error: 429 rate limit"
     = EmbeddingError ("Failed to generate embeddings: " +:+ m))
  /\ forall k,
       Lru.peek 0 k
         (cache (snd (embed failing_provider 0 [0%nat] new_service ["a"] "m")))
       = Lru.peek 0 k (cache new_service).
Proof.
  apply (embed_failure_caches_nothing failing_provider 0 [0%nat] new_service ["a"] "m").
  reflexivity.
Defined.

Lemma embedSingle_owed_witness :
  exists svc',
    embedSingle Examples.length_provider 0 new_service "hello" "m"
    = (inr (owed length_embedding 0 "m" (cache new_service) "hello"), svc')
    /\ calls_since new_service svc'
       = if uncached 0 "m" (cache new_service) "hello" then [("m", ["hello"])] else [].
Proof.
  apply (embedSingle_owed Examples.length_provider length_embedding 0 new_service
           "hello" "m").
  apply length_provider_order_preserving.
Defined.

Lemma embedSingle_then_embed_witness :
  exists svc1 svc2,
    embedSingle Examples.length_provider 0 new_service "hello" "m"
    = (inr (length_embedding "hello"), svc1)
    /\ embed Examples.length_provider 5 [] svc1 ["hello"] "m"
       = (inr [Some (length_embedding "hello")], svc2)
    /\ calls svc2 = calls svc1.
Proof.
  apply (embedSingle_then_embed Examples.length_provider length_embedding 0 5 []
           new_service "hello" "m").
  - apply length_provider_order_preserving.
  - reflexivity.
  - vm_compute. discriminate.
Defined.

Lemma cache_stays_within_capacity_witness :
  (length (cache (snd (embed Examples.length_provider 0 [0%nat] new_service
                         ["a"; "b"] "m"))) <= 1000)%nat
  /\ (length (cache (snd (embedSingle Examples.length_provider 0 new_service
                            "a" "m"))) <= 1000)%nat.
Proof.
  apply (cache_stays_within_capacity Examples.length_provider 0 [0%nat] new_service
           ["a"; "b"] "a" "m").
  cbn. lia.
Defined.

Lemma fetch_returns_the_requested_rows_witness :
  NoDup (map fd_id [to_document Examples.row_x_in_a])
  /\ forall d,
       d ∈ [to_document Examples.row_x_in_a] <->
       exists r, table collection_ab !! fd_id d = Some r
                 /\ d = to_document r
                 /\ NAMESPACE r = string_or (f_namespace fetch_x_in_a) "default"
                 /\ fd_id d ∈ f_ids fetch_x_in_a
                 /\ fd_id d <> "".
Proof.
  apply (fetch_returns_the_requested_rows collection_ab fetch_x_in_a).
  - apply keyed_collection_ab.
  - vm_compute. reflexivity.
Defined.

Lemma upsert_then_fetch_witness :
  fetch (snd (upsert Examples.length_provider 0 [] Examples.collection_a
                Examples.upsert_x_into_b))
    (mkFetch ["x"] (Some "b"))
  = inr [mkFetched "x" None [] [Parsed 0; Parsed 1]].
Proof.
  refine (upsert_then_fetch Examples.length_provider 0 [] Examples.collection_a
            Examples.upsert_x_into_b _ [] (mkDocument "x" None None (Some [0; 1]%Z))
            [] [0; 1]%Z keyed_collection_a _ _ _ _ _ _).
  - vm_compute. reflexivity.
  - reflexivity.
  - cbn. apply not_elem_of_nil.
  - reflexivity.
  - discriminate.
  - discriminate.
Defined.

Lemma upsert_invisible_in_other_namespaces_witness :
  fetch (snd (upsert Examples.length_provider 0 [] Examples.collection_a
                Examples.upsert_x_into_b))
    (mkFetch ["x"] (Some "a"))
  = inr [].
Proof.
  refine (upsert_invisible_in_other_namespaces Examples.length_provider 0 []
            Examples.collection_a Examples.upsert_x_into_b _ (mkFetch ["x"] (Some "a"))
            keyed_collection_a _ _ _ _).
  - vm_compute. reflexivity.
  - discriminate.
  - intros id Hid. exact Hid.
  - discriminate.
Defined.

Lemma upsert_writes_the_configured_dimension_witness :
  (forall doc v, doc ∈ u_documents Examples.upsert_x_into_b ->
     doc_vector doc = Some v ->
     Z.of_nat (length v) = dimension (config Examples.collection_a))
  /\ (forall doc, doc ∈ u_documents Examples.upsert_x_into_b ->
        exists r v,
          table (snd (upsert Examples.length_provider 0 [] Examples.collection_a
                        Examples.upsert_x_into_b)) !! doc_id doc = Some r
          /\ EMBEDDING r = vector_literal v
          /\ Z.of_nat (length v) = dimension (config Examples.collection_a)).
Proof.
  apply (upsert_writes_the_configured_dimension Examples.length_provider 0 []
           Examples.collection_a Examples.upsert_x_into_b).
  vm_compute. reflexivity.
Defined.

Lemma upsert_stores_the_embedding_of_the_text_witness :
  table (snd (upsert Examples.length_provider 0 [0%nat]
                Examples.collection_embedding upsert_text_only)) !! "d"
  = Some (make_bind "default" (mkDocument "d" (Some "hello") None None)
            (resolved length_embedding 0 "text-embedding-ada-002" new_service
               (mkDocument "d" (Some "hello") None None))).
Proof.
  apply (upsert_stores_the_embedding_of_the_text Examples.length_provider
           length_embedding 0 [0%nat] Examples.collection_embedding upsert_text_only
           new_service "text-embedding-ada-002"
           (snd (upsert Examples.length_provider 0 [0%nat]
                   Examples.collection_embedding upsert_text_only))
           [] (mkDocument "d" (Some "hello") None None) []).
  - reflexivity.
  - apply length_provider_order_preserving.
  - vm_compute. reflexivity.
  - vm_compute. reflexivity.
  - reflexivity.
  - cbn. apply not_elem_of_nil.
  - discriminate.
Defined.

Lemma update_touches_only_the_addressed_row_witness :
  match table collection_ab !! "y",
        table (snd (update Examples.length_provider 0 collection_ab
                      update_x_metadata)) !! "y" with
  | Some before, Some after =>
      ID after = ID before
      /\ NAMESPACE after = NAMESPACE before
      /\ (ID before <> up_id update_x_metadata
          \/ NAMESPACE before
             <> string_or (up_namespace update_x_metadata) "default" ->
          after = before)
  | None, None => True
  | _, _ => False
  end.
Proof.
  apply (update_touches_only_the_addressed_row Examples.length_provider 0
           collection_ab update_x_metadata (inr tt)
           (snd (update Examples.length_provider 0 collection_ab update_x_metadata))
           eq_refl "y").
Defined.

Lemma update_without_changes_is_rejected_witness :
  update Examples.length_provider 0 collection_ab (mkUpdate "x" None (Some "") None)
  = (inl (ValidationError "No updates provided"), collection_ab).
Proof.
  apply (update_without_changes_is_rejected Examples.length_provider 0 collection_ab
           (mkUpdate "x" None (Some "") None)).
  - reflexivity.
  - right. reflexivity.
Defined.

Lemma update_text_without_service_keeps_the_vector_witness :
  exists c',
    update Examples.length_provider 0 collection_ab update_x_text = (inr tt, c')
    /\ embeddingService c' = embeddingService collection_ab
    /\ table c' !! up_id update_x_text
       = Some (mkRow (ID Examples.row_x_in_a) (EMBEDDING Examples.row_x_in_a)
                 (Some "new text")
                 (default (METADATA Examples.row_x_in_a) (up_metadata update_x_text))
                 (NAMESPACE Examples.row_x_in_a)).
Proof.
  apply (update_text_without_service_keeps_the_vector Examples.length_provider 0
           collection_ab update_x_text "new text" Examples.row_x_in_a).
  - reflexivity.
  - reflexivity.
  - vm_compute. reflexivity.
  - reflexivity.
  - discriminate.
  - reflexivity.
Defined.

Lemma update_text_stores_the_new_embedding_witness :
  table (snd (update Examples.length_provider 0 collection_embedding_d
                update_d_text)) !! up_id update_d_text
  = Some (mkRow (ID row_d)
            (vector_literal (owed length_embedding 0 "text-embedding-ada-002"
                               (cache new_service) "hello"))
            (Some "hello")
            (default (METADATA row_d) (up_metadata update_d_text))
            (NAMESPACE row_d)).
Proof.
  apply (update_text_stores_the_new_embedding Examples.length_provider
           length_embedding 0 collection_embedding_d update_d_text new_service
           "text-embedding-ada-002" "hello" row_d
           (snd (update Examples.length_provider 0 collection_embedding_d
                   update_d_text))).
  - reflexivity.
  - apply length_provider_order_preserving.
  - reflexivity.
  - vm_compute. reflexivity.
  - reflexivity.
  - discriminate.
  - reflexivity.
  - vm_compute. reflexivity.
Defined.

Lemma delete_stays_in_its_namespace_witness :
  embeddingService (snd (delete collection_ab delete_k_in_b))
  = embeddingService collection_ab
  /\ (forall k row,
        table (snd (delete collection_ab delete_k_in_b)) !! k = Some row ->
        table collection_ab !! k = Some row)
  /\ (forall k row, table collection_ab !! k = Some row ->
        NAMESPACE row <> string_or (d_namespace delete_k_in_b) "default" ->
        table (snd (delete collection_ab delete_k_in_b)) !! k = Some row).
Proof.
  apply (delete_stays_in_its_namespace collection_ab delete_k_in_b (inr tt)).
  - reflexivity.
  - reflexivity.
Defined.

Lemma delete_all_empties_the_namespace_witness :
  exists c',
    delete collection_ab (mkDelete (Some ["y"]) None (Some true) (Some "a"))
    = (inr tt, c')
    /\ rows_in "a" (table c') = []
    /\ delete collection_ab (mkDelete None None (Some true) (Some "a")) = (inr tt, c').
Proof.
  apply (delete_all_empties_the_namespace collection_ab
           (mkDelete (Some ["y"]) None (Some true) (Some "a"))).
  reflexivity.
Defined.

Lemma delete_by_unsupported_filter_deletes_nothing_witness :
  delete collection_ab (mkDelete None (Some Examples.filter_regex) None (Some "a"))
  = (inr tt, collection_ab).
Proof.
  apply (delete_by_unsupported_filter_deletes_nothing collection_ab
           (mkDelete None (Some Examples.filter_regex) None (Some "a"))
           Examples.filter_regex).
  - reflexivity.
  - left. reflexivity.
  - reflexivity.
  - repeat constructor.
Defined.

Lemma delete_removes_ids_before_the_filter_fails_witness :
  exists c',
    delete collection_ab delete_x_and_bad_filter
    = (inl (TypeError "val.map is not a function"), c')
    /\ forall id row,
         id ∈ ["x"] -> id <> "" -> table collection_ab !! id = Some row ->
         NAMESPACE row = string_or (d_namespace delete_x_and_bad_filter) "default" ->
         table c' !! id = None.
Proof.
  apply (delete_removes_ids_before_the_filter_fails collection_ab
           delete_x_and_bad_filter ["x"] [("k", JObj [("$in", JStr "v")])]
           (TypeError "val.map is not a function") keyed_collection_ab);
    reflexivity.
Defined.

Lemma delete_ids_then_fetch_witness :
  exists c',
    delete collection_ab delete_x_in_a = (inr tt, c')
    /\ fetch c' (mkFetch ["x"] (d_namespace delete_x_in_a)) = inr []
    /\ forall k row,
         table collection_ab !! k = Some row ->
         k ∉ ["x"] \/ NAMESPACE row <> string_or (d_namespace delete_x_in_a) "default" ->
         table c' !! k = Some row.
Proof.
  apply (delete_ids_then_fetch collection_ab delete_x_in_a ["x"] keyed_collection_ab).
  - reflexivity.
  - reflexivity.
  - discriminate.
  - reflexivity.
Defined.

Lemma search_matches_are_in_the_namespace_witness :
  r_namespace (mkResponse (map (to_match Examples.query_price_gt_10)
                             [(0%Q, Examples.row_p9)]) "default")
  = string_or (q_namespace Examples.query_price_gt_10) "default"
  /\ exists conditions,
       request_conditions Examples.query_price_gt_10 = inr conditions
       /\ forall m,
            m ∈ matches (mkResponse (map (to_match Examples.query_price_gt_10)
                                       [(0%Q, Examples.row_p9)]) "default") ->
            exists row,
              row ∈ rows (table Examples.collection_prices)
              /\ m_id m = ID row
              /\ NAMESPACE row
                 = string_or (q_namespace Examples.query_price_gt_10) "default"
              /\ forallb (holds (METADATA row)) conditions = true.
Proof.
  apply (search_matches_are_in_the_namespace Examples.length_provider
           Examples.zero_distance 0 Examples.collection_prices
           Examples.query_price_gt_10 _ Examples.collection_prices).
  - reflexivity.
  - vm_compute. reflexivity.
Defined.

Lemma stats_counts_the_rows_witness :
  exists st,
    stats collection_ab = inr st
    /\ documentCount st = length (rows (table collection_ab))
    /\ totalDocuments st = length (rows (table collection_ab))
    /\ (forall namespace,
          namespaces st !! namespace
          = if String.eqb namespace "__proto__" then None
            else match length (rows_in namespace (table collection_ab)) with
                 | O => None
                 | S n => Some (S n)
                 end)
    /\ stats_dimension st = dimension (config collection_ab).
Proof.
  apply (stats_counts_the_rows collection_ab).
  vm_compute. reflexivity.
Defined.

Lemma search_by_text_is_search_by_its_vector_witness :
  fst (search Examples.length_provider Examples.zero_distance 0
         collection_embedding_d query_text)
  = fst (search Examples.length_provider Examples.zero_distance 0
           collection_embedding_d
           (with_vector query_text
              (owed length_embedding 0 "text-embedding-ada-002"
                 (cache new_service) "hello"))).
Proof.
  apply (search_by_text_is_search_by_its_vector Examples.length_provider
           Examples.zero_distance length_embedding 0 collection_embedding_d
           query_text new_service "text-embedding-ada-002" "hello").
  - reflexivity.
  - reflexivity.
  - reflexivity.
  - reflexivity.
  - apply length_provider_order_preserving.
Defined.

Lemma opened_collection_expects_1536_witness :
  getCollectionConfig []
  = mkConfig 1536 (Some cosine) (Some "text-embedding-ada-002")
  /\ length (replicate 1536 0%Z) = 1536%nat.
Proof.
  destruct (opened_collection_expects_1536 Examples.length_provider 0 []
              "docs" None [] ∅ upsert_1536
              (snd (upsert Examples.length_provider 0 []
                      (new_Collection "docs" None (getCollectionConfig []) ∅)
                      upsert_1536))) as [Hconfig Hvectors].
  split; [exact Hconfig|].
  apply (Hvectors ltac:(vm_compute; reflexivity)
           (mkDocument "v" None None (Some (replicate 1536 0%Z)))).
  - apply list_elem_of_here.
  - reflexivity.
Defined.
